(** * The spaceship interpolator: movement and fuel simulation

    A shallow embedding of [SpaceshipInterpolator] (the server-side
    interpolation loop that moves one ship towards its destination, burns
    fuel and mirrors its state into the Redis hash [sputnik:state]).

    JavaScript numbers are idealised as real numbers extended with [NaN];
    rounding, infinities and signed zeros are outside the model, and are
    the matter of the module [Binary64], which redoes the arithmetic of a
    tick on the numbers of the program.  Redis is modelled as a reliable
    store: one hash, and the lists of messages published on the two
    channels.  The methods are [async], and the model runs each of them
    to completion before the next one starts. *)

From Stdlib Require Import PrimFloat.
From Stdlib Require Import Reals Lra ZArith Psatz.
From stdpp Require Import gmap strings list fin_maps.

Set Warnings "-register-all,-inexact-float".
Local Open Scope R_scope.

(** ** Numbers *)

Inductive num : Type :=
| Fin (r : R)
| NaN.

Definition nadd (a b : num) : num :=
  match a, b with Fin p, Fin q => Fin (p + q) | _, _ => NaN end.
Definition nsub (a b : num) : num :=
  match a, b with Fin p, Fin q => Fin (p - q) | _, _ => NaN end.
Definition nmul (a b : num) : num :=
  match a, b with Fin p, Fin q => Fin (p * q) | _, _ => NaN end.
(** Every divisor of the program was tested or configured to be nonzero. *)
Definition ndiv (a b : num) : num :=
  match a, b with Fin p, Fin q => Fin (p / q) | _, _ => NaN end.
(** [Math.pow(a, n)] for a literal exponent [n]. *)
Definition npow (a : num) (n : nat) : num :=
  match a with Fin p => Fin (p ^ n) | NaN => NaN end.
(** [Math.sqrt]. *)
Definition nsqrt (a : num) : num :=
  match a with
  | Fin p => if Rlt_dec p 0 then NaN else Fin (sqrt p)
  | NaN => NaN
  end.
(** [Math.max] and [Math.min]: [NaN] as soon as one argument is. *)
Definition nmax (a b : num) : num :=
  match a, b with Fin p, Fin q => Fin (Rmax p q) | _, _ => NaN end.
Definition nmin (a b : num) : num :=
  match a, b with Fin p, Fin q => Fin (Rmin p q) | _, _ => NaN end.

(** [a <= b]: false as soon as one side is [NaN]. *)
Definition nle (a b : num) : bool :=
  match a, b with
  | Fin p, Fin q => if Rle_dec p q then true else false
  | _, _ => false
  end.

(** [a === 0]. *)
Definition is_zero (a : num) : bool :=
  match a with
  | Fin p => if Req_dec_T p 0 then true else false
  | NaN => false
  end.

Declare Scope num_scope.
Delimit Scope num_scope with num.
Bind Scope num_scope with num.
Infix "+" := nadd : num_scope.
Infix "-" := nsub : num_scope.
Infix "*" := nmul : num_scope.
Infix "/" := ndiv : num_scope.

(** ** Vectors *)

Record Vector3 : Type := mkVector3 { x : num; y : num; z : num }.

(** ** Exceptions *)

Inductive result (A : Type) : Type :=
| Ok (a : A)
| Throw.
Arguments Ok {A} a.
Arguments Throw {A}.

Definition try_catch {A : Type} (body : result A) (handler : A) : A :=
  match body with Ok a => a | Throw => handler end.

#[global] Instance result_bind : MBind result :=
  fun A B k m => match m with Ok a => k a | Throw => Throw end.

(** ** Strings and JSON

    A string is kept as what the program can observe of it: whether it is
    empty, what [JSON.parse] makes of it, and what [parseFloat] reads from
    it.  [TJson v] is the text [JSON.stringify] writes for [v]; the decimal
    text of a number [r] is [TJson (JNum r)]; [TOther pf] is any other
    non-empty string, which [JSON.parse] rejects and from which
    [parseFloat] reads [pf] (["NaN"] and ["abc"] are [TOther NaN],
    ["12abc"] is [TOther (Fin 12)]). *)

Inductive json : Type :=
| JNull
| JBool (b : bool)
| JNum (r : R)
| JStr (s : text)
| JArr (l : list json)
| JObj (l : list (string * json))
with text : Type :=
| TEmpty
| TJson (v : json)
| TOther (pf : num).

(** A string is truthy when it is not empty. *)
Definition text_truthy (t : text) : bool :=
  match t with TEmpty => false | _ => true end.

(** [JSON.parse]; [Throw] is its [SyntaxError]. *)
Definition JSON_parse (t : text) : result json :=
  match t with TJson v => Ok v | _ => Throw end.

Definition parseFloat (t : text) : num :=
  match t with
  | TJson (JNum r) => Fin r
  | TOther pf => pf
  | _ => NaN
  end.

(** [Number.prototype.toString]. *)
Definition toString (a : num) : text :=
  match a with Fin r => TJson (JNum r) | NaN => TOther NaN end.

Definition str_true : text := TJson (JBool true).
Definition str_false : text := TJson (JBool false).

(** [t === 'true'] *)
Definition is_str_true (t : text) : bool :=
  match t with TJson (JBool true) => true | _ => false end.

(** Truthiness of a parsed JSON value. *)
Definition json_truthy (v : json) : bool :=
  match v with
  | JNull => false
  | JBool b => b
  | JNum r => if Req_dec_T r 0 then false else true
  | JStr s => text_truthy s
  | JArr _ | JObj _ => true
  end.

(** Run-time values handed to [updateState] (its [any]). *)
Inductive value : Type :=
| VNumber (a : num)
| VString (s : text)
| VNull
| VBoolean (b : bool)
| VArray (l : list value)
| VObject (l : list (string * value)).

(** What [JSON.stringify] serialises a value to: [NaN] is written [null]. *)
Fixpoint to_json (v : value) : json :=
  match v with
  | VNumber (Fin r) => JNum r
  | VNumber NaN => JNull
  | VString s => JStr s
  | VNull => JNull
  | VBoolean b => JBool b
  | VArray l => JArr (List.map to_json l)
  | VObject l => JObj (List.map (fun kv => (fst kv, to_json (snd kv))) l)
  end.

Definition JSON_stringify (v : value) : text := TJson (to_json v).

Definition numbers (l : list num) : value := VArray (List.map VNumber l).

(** ** The interpolator and its Redis connection *)

(** Messages published on [sputnik:events]. *)
Inductive Event : Type :=
| fuel_update (fuel : num)
| fuel_depleted (position : list num) (timestamp : Z)
| arrival (position : list num) (fuel : num) (timestamp : Z).

(** Messages of [sputnik:commands] once parsed; [other_command] is any
    payload that is neither a [move_to] with an array nor a [stop]. *)
Inductive Command : Type :=
| move_to (destination : list num)
| stop
| other_command.

(** The fields of the object ([intervalId] tells whether an interval is
    set), the hash [sputnik:state], the messages published on the two
    channels, the clock read by [Date.now()] and the pending [setTimeout]
    callbacks of [notifyArrival] (the instants at which they fire). *)
Record World : Type := mkWorld {
  isRunning : bool;
  intervalId : bool;
  currentPosition : Vector3;
  destination : option Vector3;
  isNotifyingArrival : bool;
  state : gmap string text;
  events : list Event;
  commands : list Command;
  now : Z;
  timeouts : list Z
}.

Definition set_isRunning (b : bool) (w : World) : World :=
  mkWorld b (intervalId w) (currentPosition w) (destination w)
    (isNotifyingArrival w) (state w) (events w) (commands w) (now w)
    (timeouts w).
Definition set_intervalId (b : bool) (w : World) : World :=
  mkWorld (isRunning w) b (currentPosition w) (destination w)
    (isNotifyingArrival w) (state w) (events w) (commands w) (now w)
    (timeouts w).
Definition set_currentPosition (p : Vector3) (w : World) : World :=
  mkWorld (isRunning w) (intervalId w) p (destination w)
    (isNotifyingArrival w) (state w) (events w) (commands w) (now w)
    (timeouts w).
Definition set_destination (d : option Vector3) (w : World) : World :=
  mkWorld (isRunning w) (intervalId w) (currentPosition w) d
    (isNotifyingArrival w) (state w) (events w) (commands w) (now w)
    (timeouts w).
Definition set_isNotifyingArrival (b : bool) (w : World) : World :=
  mkWorld (isRunning w) (intervalId w) (currentPosition w) (destination w)
    b (state w) (events w) (commands w) (now w) (timeouts w).
Definition set_state (h : gmap string text) (w : World) : World :=
  mkWorld (isRunning w) (intervalId w) (currentPosition w) (destination w)
    (isNotifyingArrival w) h (events w) (commands w) (now w) (timeouts w).
Definition set_now (t : Z) (w : World) : World :=
  mkWorld (isRunning w) (intervalId w) (currentPosition w) (destination w)
    (isNotifyingArrival w) (state w) (events w) (commands w) t (timeouts w).
Definition set_timeouts (l : list Z) (w : World) : World :=
  mkWorld (isRunning w) (intervalId w) (currentPosition w) (destination w)
    (isNotifyingArrival w) (state w) (events w) (commands w) (now w) l.

(** [redis.hSet('sputnik:state', fields)]: the given fields are written,
    the others stay. *)
Definition hSet (fields : gmap string text) (w : World) : World :=
  set_state (fields ∪ state w) w.

(** [redis.hSet('sputnik:state', field, value)] *)
Definition hSet1 (field : string) (v : text) (w : World) : World :=
  set_state (<[field := v]> (state w)) w.

(** [redis.publish('sputnik:events', ...)] *)
Definition publish_event (e : Event) (w : World) : World :=
  mkWorld (isRunning w) (intervalId w) (currentPosition w) (destination w)
    (isNotifyingArrival w) (state w) (events w ++ [e]) (commands w) (now w)
    (timeouts w).

(** [redis.publish('sputnik:commands', ...)] *)
Definition publish_command (c : Command) (w : World) : World :=
  mkWorld (isRunning w) (intervalId w) (currentPosition w) (destination w)
    (isNotifyingArrival w) (state w) (events w) (commands w ++ [c]) (now w)
    (timeouts w).

(** The decimal text of an integer ([Date.now().toString()]). *)
Definition Z_toString (t : Z) : text := toString (Fin (IZR t)).

Definition vector_numbers (v : Vector3) : list num := [x v; y v; z v].

(** The result of [getState]. *)
Module State.
Record t : Type := mk {
  position : json;
  velocity : json;
  destination : json;
  fuel : num;
  target_planet_id : option text;
  isMoving : bool
}.
End State.

(** ** The methods of [SpaceshipInterpolator] *)

Definition ARRIVAL_THRESHOLD : R := 10.
Definition UPDATE_INTERVAL : R := 50.

Section Interpolator.

(** [Number(process.env...) || default]: the two configured constants,
    which that expression makes nonzero numbers. *)
Variable MOVEMENT_SPEED : R.
Variable FUEL_CONSUMPTION_RATE : R.

Definition startInterpolation (w : World) : World :=
  if isRunning w then w
  else
    let w := set_isRunning true w in
    let w := set_isNotifyingArrival false w in
    (* clearInterval of a stale handle, then setInterval *)
    let w := if intervalId w then set_intervalId false w else w in
    set_intervalId true w.

Definition getCurrentFuel (w : World) : num :=
  match state w !! "fuel" with
  | Some fuelStr =>
      if text_truthy fuelStr then parseFloat fuelStr else Fin 100
  | None => Fin 100
  end.

Definition updateFuel (newFuel : num) (w : World) : World :=
  let w := hSet1 "fuel" (toString newFuel) w in
  publish_event (fuel_update newFuel) w.

Definition calculateDistance (a b : Vector3) : num :=
  nsqrt (npow (x b - x a) 2 + npow (y b - y a) 2 + npow (z b - z a) 2)%num.

Definition normalizeVector (v : Vector3) : Vector3 :=
  let length := nsqrt (x v * x v + y v * y v + z v * z v)%num in
  if is_zero length then mkVector3 (Fin 0) (Fin 0) (Fin 0)
  else mkVector3 (x v / length)%num (y v / length)%num (z v / length)%num.

Definition towards (dest pos : Vector3) : Vector3 :=
  mkVector3 (x dest - x pos)%num (y dest - y pos)%num (z dest - z pos)%num.

Definition calculateVelocity (w : World) : list num :=
  match destination w with
  | None => [Fin 0; Fin 0; Fin 0]
  | Some dest =>
      let direction := normalizeVector (towards dest (currentPosition w)) in
      [ (x direction * Fin MOVEMENT_SPEED)%num;
        (y direction * Fin MOVEMENT_SPEED)%num;
        (z direction * Fin MOVEMENT_SPEED)%num ]
  end.

Definition updateRedisPosition (w : World) : World :=
  let position := vector_numbers (currentPosition w) in
  let velocity :=
    match destination w with
    | Some _ => calculateVelocity w
    | None => [Fin 0; Fin 0; Fin 0]
    end in
  let timestamp := now w in
  let currentFuel := getCurrentFuel w in
  hSet (list_to_map
    [ ("position", JSON_stringify (numbers position));
      ("velocity", JSON_stringify (numbers velocity));
      ("destination",
        match destination w with
        | Some dest => JSON_stringify (numbers (vector_numbers dest))
        | None => TEmpty
        end);
      ("timestamp", Z_toString timestamp);
      ("isMoving", if isRunning w then str_true else str_false);
      ("fuel", toString currentFuel) ]) w.

Definition stopInterpolation (w : World) : World :=
  if negb (isRunning w) then w
  else
    let w := set_isRunning false w in
    let w := if intervalId w then set_intervalId false w else w in
    let w := updateRedisPosition w in
    hSet1 "isMoving" str_false w.

(** The conversion of one entry of [updates] in [updateState]. *)
Definition redis_value (key : string) (v : value) : text :=
  if bool_decide (key = "position" ∨ key = "velocity" ∨ key = "destination")
  then JSON_stringify v
  else match v with
       | VNumber a => toString a
       | VString s => s
       | VNull => TEmpty
       | _ => JSON_stringify v
       end.

Definition updateState (updates : list (string * value)) (w : World)
  : World * bool :=
  let updateData : gmap string text :=
    foldl (fun acc kv => <[fst kv := redis_value (fst kv) (snd kv)]> acc)
          ∅ updates in
  let updateData := <["timestamp" := Z_toString (now w)]> updateData in
  (hSet updateData w, true).

Definition notifyArrival (position : Vector3) (w : World) : World :=
  if isNotifyingArrival w then w
  else
    let w := set_isNotifyingArrival true w in
    (* [position.x ?? 0]: a number is never nullish *)
    let positionArray := [x position; y position; z position] in
    let currentFuel := getCurrentFuel w in
    let w := publish_event (arrival positionArray currentFuel (now w)) w in
    let w := fst (updateState
      [ ("position", numbers positionArray);
        ("velocity", numbers [Fin 0; Fin 0; Fin 0]);
        ("destination", VNull);
        ("isMoving", VBoolean false);
        ("fuel", VNumber currentFuel) ] w) in
    (* finally: setTimeout(() => isNotifyingArrival = false, 1000) *)
    set_timeouts (timeouts w ++ [(now w + 1000)%Z]) w.

Definition advance (pos direction : Vector3) (d : num) : Vector3 :=
  mkVector3 (x pos + x direction * d)%num
            (y pos + y direction * d)%num
            (z pos + z direction * d)%num.

Definition updatePosition (w : World) : World :=
  match destination w with
  | None => w
  | Some dest =>
    if negb (isRunning w) then w
    else
      let direction := normalizeVector (towards dest (currentPosition w)) in
      let distance := calculateDistance (currentPosition w) dest in
      let deltaTime := UPDATE_INTERVAL / 1000 in
      let moveDistance := MOVEMENT_SPEED * deltaTime in
      let currentFuel := getCurrentFuel w in
      let fuelConsumed := moveDistance * FUEL_CONSUMPTION_RATE in
      if nle currentFuel (Fin 0) then
        let w := set_destination None w in
        stopInterpolation w
      else if nle (currentFuel - Fin fuelConsumed)%num (Fin 0) then
        let w := updateFuel (Fin 0) w in
        let possibleDistance :=
          (currentFuel / Fin FUEL_CONSUMPTION_RATE)%num in
        let w :=
          set_currentPosition
            (advance (currentPosition w) direction possibleDistance) w in
        let w := updateRedisPosition w in
        let w :=
          publish_event
            (fuel_depleted (vector_numbers (currentPosition w)) (now w)) w in
        let w := set_destination None w in
        stopInterpolation w
      else
        let w :=
          updateFuel (nmax (Fin 0) (currentFuel - Fin fuelConsumed)%num) w in
        if nle distance (Fin ARRIVAL_THRESHOLD) then
          let w := set_currentPosition dest w in
          let arrivalPosition := currentPosition w in
          let w := stopInterpolation w in
          let w := set_destination None w in
          let w := hSet1 "destination" TEmpty w in
          notifyArrival arrivalPosition w
        else
          let movementThisFrame := nmin (Fin moveDistance) distance in
          let w :=
            set_currentPosition
              (advance (currentPosition w) direction movementThisFrame) w in
          updateRedisPosition w
  end.

(** *** Reading and writing the state through the control API *)

(** [v.map(val => val ?? 0)]; [Throw] is the [TypeError] raised when
    the parsed value has no [map] method, that is when it is not an
    array. *)
Definition map_nullish_0 (v : json) : result json :=
  match v with
  | JArr l =>
      Ok (JArr (List.map
            (fun val => match val with JNull => JNum 0 | _ => val end) l))
  | _ => Throw
  end.

Definition zeros : json := JArr [JNum 0; JNum 0; JNum 0].

(** The block of [getState] that reads [position], repeated in the
    source for [velocity]. *)
Definition read_vector (field : option text) : json :=
  match field with
  | Some s =>
      if text_truthy s then
        try_catch
          (parsed ← JSON_parse s;
           if json_truthy parsed then map_nullish_0 parsed else Ok zeros)
          zeros
      else zeros
  | None => zeros
  end.

Definition read_destination (field : option text) : json :=
  match field with
  | Some s =>
      if text_truthy s then try_catch (JSON_parse s) JNull else JNull
  | None => JNull
  end.

Definition getState_body (w : World) : result (option State.t) :=
  let stateData := state w in
  if decide (size stateData = 0%nat) then Ok None
  else
    Ok (Some (State.mk
      (read_vector (stateData !! "position"))
      (read_vector (stateData !! "velocity"))
      (read_destination (stateData !! "destination"))
      (match stateData !! "fuel" with
       | Some s => if text_truthy s then parseFloat s else Fin 100
       | None => Fin 100
       end)
      (match stateData !! "target_planet_id" with
       | Some s => if text_truthy s then Some s else None
       | None => None
       end)
      (match stateData !! "isMoving" with
       | Some s => is_str_true s
       | None => false
       end))).

Definition getState (w : World) : option State.t :=
  try_catch (getState_body w) None.

Definition setDestination (dest : num * num * num) (w : World)
  : World * bool :=
  let '(d0, d1, d2) := dest in
  let w := set_destination (Some (mkVector3 d0 d1 d2)) w in
  let currentFuel := getCurrentFuel w in
  let w := hSet (list_to_map
    [ ("destination", JSON_stringify (numbers [d0; d1; d2]));
      ("isMoving", str_true);
      ("fuel", toString currentFuel) ]) w in
  let w := startInterpolation w in
  let w := publish_command (move_to [d0; d1; d2]) w in
  (w, true).

(** The callback subscribed to [sputnik:commands].  A missing array
    element is [undefined], which behaves as [NaN] in the arithmetic
    and is serialised as [null] like it. *)
Definition on_command (command : Command) (w : World) : World :=
  match command with
  | move_to dest =>
      let w := set_destination
        (Some (mkVector3 (nth 0 dest NaN) (nth 1 dest NaN) (nth 2 dest NaN)))
        w in
      if negb (isRunning w) then startInterpolation w else w
  | stop =>
      let w := set_destination None w in
      stopInterpolation w
  | other_command => w
  end.

(** [arr[i] || 0] for an array of numbers, as [arrayToVector3] declares
    its argument: a missing element, [null] or 0 gives 0.  What the
    declared type excludes (an element that is not a number, or indexing
    something that is not an array) is read as [NaN] when truthy and as 0
    otherwise. *)
Definition element_or_0 (arr : json) (i : nat) : num :=
  match arr with
  | JArr l =>
      match nth_error l i with
      | Some (JNum r) => Fin r
      | Some v => if json_truthy v then NaN else Fin 0
      | None => Fin 0
      end
  | JStr _ => NaN
  | _ => Fin 0
  end.

Definition arrayToVector3 (arr : json) : Vector3 :=
  mkVector3 (element_or_0 arr 0) (element_or_0 arr 1) (element_or_0 arr 2).

Definition initialize (w : World) : World :=
  let w :=
    match getState w with
    | Some st =>
        let w :=
          if json_truthy (State.position st)
          then set_currentPosition (arrayToVector3 (State.position st)) w
          else w in
        if json_truthy (State.destination st) then
          let w := set_destination
                     (Some (arrayToVector3 (State.destination st))) w in
          startInterpolation w
        else w
    | None =>
        fst (updateState
          [ ("position", numbers [Fin 0; Fin 0; Fin 0]);
            ("velocity", numbers [Fin 0; Fin 0; Fin 0]);
            ("fuel", VNumber (Fin 100)) ] w)
    end in
  updateRedisPosition w.

(** *** The runs of the process *)

(** The object as its constructor leaves it, next to a hash [h] found in
    Redis at time [t]. *)
Definition created (h : gmap string text) (t : Z) : World :=
  mkWorld false false (mkVector3 (Fin 0) (Fin 0) (Fin 0)) None false
          h [] [] t [].

(** [dt] milliseconds pass; the [setTimeout] callbacks that fall due
    run, each resetting [isNotifyingArrival]. *)
Definition elapse (dt : Z) (w : World) : World :=
  let t := (now w + dt)%Z in
  let w := set_now t w in
  let due := List.filter (fun d => (d <=? t)%Z) (timeouts w) in
  let w := match due with [] => w | _ => set_isNotifyingArrival false w end in
  set_timeouts (List.filter (fun d => negb (d <=? t)%Z) (timeouts w)) w.

Inductive step : World -> World -> Prop :=
| step_tick w :
    intervalId w = true -> step w (updatePosition w)
| step_setDestination w dest :
    step w (fst (setDestination dest w))
| step_command w command :
    step w (on_command command w)
| step_elapse w dt :
    (0 <= dt)%Z -> step w (elapse dt w).

Inductive reachable (h : gmap string text) (t : Z) : World -> Prop :=
| reachable_initialize : reachable h t (initialize (created h t))
| reachable_step w w' : reachable h t w -> step w w' -> reachable h t w'.

End Interpolator.


(** ** Vocabulary of the statements *)

(** The defaults of the two configured constants. *)
Definition DEFAULT_SPEED : R := 2433 / 100.
Definition DEFAULT_RATE : R := 1 / 100.

(** A vector of real components. *)
Definition vec (a b c : R) : Vector3 := mkVector3 (Fin a) (Fin b) (Fin c).

(** The value [updateState] was last given for [key], if any. *)
Fixpoint supplied (key : string) (updates : list (string * value))
  : option value :=
  match updates with
  | [] => None
  | kv :: rest =>
      match supplied key rest with
      | Some v => Some v
      | None => if decide (fst kv = key) then Some (snd kv) else None
      end
  end.

(** Number of [arrival] events in a log. *)
Fixpoint arrivals (log : list Event) : nat :=
  match log with
  | [] => 0
  | arrival _ _ _ :: rest => S (arrivals rest)
  | _ :: rest => arrivals rest
  end.

(** Number of [fuel_depleted] events in a log. *)
Fixpoint depletions (log : list Event) : nat :=
  match log with
  | [] => 0
  | fuel_depleted _ _ :: rest => S (depletions rest)
  | _ :: rest => depletions rest
  end.

(** [n] ticks of the interval in a row. *)
Fixpoint ticks (speed rate : R) (n : nat) (w : World) : World :=
  match n with
  | O => w
  | S n => updatePosition speed rate (ticks speed rate n w)
  end.

(** What holds of the object and of the hash between two methods, once
    [initialize] has run. *)
Record consistent (w : World) : Prop := {
  interval_running : intervalId w = isRunning w;
  stopped_no_destination : isRunning w = false -> destination w = None;
  running_not_notifying : isRunning w = true -> isNotifyingArrival w = false;
  stopped_persisted :
    isRunning w = false -> state w !! "isMoving" = Some str_false;
  stopped_destination_cleared :
    isRunning w = false ->
    read_destination (state w !! "destination") = JNull;
  timestamp_persisted :
    exists t, state w !! "timestamp" = Some (Z_toString t) /\ (t <= now w)%Z
}.

(** The contents of a vector field that [getState] replaces by zeros:
    missing, empty, rejected by [JSON.parse], or parsed to something that
    is not an array. *)
Definition unusable_vector (field : option text) : Prop :=
  field = None \/ field = Some TEmpty \/
  (exists pf, field = Some (TOther pf)) \/
  (exists v, field = Some (TJson v) /\ forall l, v <> JArr l).

Definition unusable_destination (field : option text) : Prop :=
  field = None \/ field = Some TEmpty \/ (exists pf, field = Some (TOther pf)).

Definition missing_or_empty (field : option text) : Prop :=
  field = None \/ field = Some TEmpty.

(** The quantities [updatePosition] computes at each tick. *)
Definition moveDistance (speed : R) : R := speed * (UPDATE_INTERVAL / 1000).
Definition fuelConsumed (speed rate : R) : R := moveDistance speed * rate.
Definition direction (w : World) (dest : Vector3) : Vector3 :=
  normalizeVector (towards dest (currentPosition w)).

(** Euclidean length of a real vector. *)
Definition norm (a b c : R) : R := sqrt (a * a + b * b + c * c).

(** A ship in transit from the origin towards [dest], with [fuel] left. *)
Definition in_transit (fuel : R) (dest : Vector3) : World :=
  mkWorld true true (vec 0 0 0) (Some dest) false
          (<["fuel" := toString (Fin fuel)]> ∅) [] [] 0 [].


(** ** The position read back, and the instance of the process *)

Definition getCurrentPosition (w : World) : option Vector3 :=
  try_catch
    (match state w !! "position" with
     | Some positionStr =>
         if text_truthy positionStr then
           position ← JSON_parse positionStr;
           match position with
           | JNull => Throw (* [arr[0]] of [null] is a [TypeError] *)
           | _ => Ok (Some (arrayToVector3 position))
           end
         else Ok None
     | None => Ok None
     end)
    None.

(** The module-level [interpolatorInstance]: [no_instance h t] before the
    first call of [getInterpolator], next to the hash [h] found in Redis
    at time [t]. *)
Inductive Process : Type :=
| no_instance (h : gmap string text) (t : Z)
| instance (w : World).

Definition getInterpolator (speed : R) (p : Process) : Process * World :=
  match p with
  | no_instance h t =>
      let w := created h t in
      let w := initialize speed w in
      (instance w, w)
  | instance w => (instance w, w)
  end.

(** The process: calls of [getInterpolator], and what happens to the
    instance between them. *)
Inductive process_run (speed rate : R) (h : gmap string text) (t : Z)
  : Process -> Prop :=
| run_start : process_run speed rate h t (no_instance h t)
| run_getInterpolator p :
    process_run speed rate h t p ->
    process_run speed rate h t (fst (getInterpolator speed p))
| run_step w w' :
    process_run speed rate h t (instance w) -> step speed rate w w' ->
    process_run speed rate h t (instance w').

(** ** More vocabulary *)

(** What a coordinate is read back as once it went through
    [JSON.stringify], [JSON.parse] and [|| 0]: [NaN] is written [null]
    and read as 0. *)
Definition or_0 (a : num) : num :=
  match a with Fin r => Fin r | NaN => Fin 0 end.

Definition read_back (v : Vector3) : Vector3 :=
  mkVector3 (or_0 (x v)) (or_0 (y v)) (or_0 (z v)).

(** The JSON array of three numbers. *)
Definition coordinates (a b c : R) : json := JArr [JNum a; JNum b; JNum c].

(** The hash mirrors the object: the position always, the velocity once
    the loop has stopped. *)
Record mirrored (w : World) : Prop := {
  position_persisted :
    state w !! "position"
    = Some (JSON_stringify (numbers (vector_numbers (currentPosition w))));
  stopped_velocity :
    isRunning w = false -> state w !! "velocity" = Some (TJson zeros)
}.

(** The pending timeouts of [notifyArrival]: each falls due within the
    next 1000 ms, and one is pending whenever the flag is set. *)
Record pending (w : World) : Prop := {
  timeouts_due : forall d, In d (timeouts w) -> (d <= now w + 1000)%Z;
  notifying_pending : isNotifyingArrival w = true -> timeouts w <> []
}.


(** ** The arithmetic of a tick on binary64 numbers

    The numbers of the program are IEEE 754 binary64 values, and the
    model above computes with exact reals instead.  This module is the
    arithmetic of [updatePosition], and of the two helpers it calls, on
    the numbers the program computes with: every operation rounds,
    overflows and underflows as the program's does.  It leaves out the
    object, the hash and the events, which do not depend on the
    arithmetic; the fuel a tick reads is a number as it was written,
    since [parseFloat] reads back the very number that [toString]
    printed. *)

Module Binary64.

Import PrimFloat.
Local Open Scope float_scope.

Record Vector3 : Type := mkVector3 { x : float; y : float; z : float }.

Definition ARRIVAL_THRESHOLD : float := 10.
Definition UPDATE_INTERVAL : float := 50.

(** [Math.min] and [Math.max]: [NaN] as soon as one argument is, and
    [-0] counts as less than [+0]. *)
Definition Math_min (a b : float) : float :=
  if is_nan a || is_nan b then nan
  else if a <? b then a
  else if b <? a then b
  else if 1 / a <? 0 then a else b.

Definition Math_max (a b : float) : float :=
  if is_nan a || is_nan b then nan
  else if a <? b then b
  else if b <? a then a
  else if 1 / a <? 0 then b else a.

(** [Math.pow(a, 2)], taken to be the correctly rounded square. *)
Definition Math_pow_2 (a : float) : float := a * a.

Definition calculateDistance (a b : Vector3) : float :=
  sqrt (Math_pow_2 (x b - x a) + Math_pow_2 (y b - y a)
        + Math_pow_2 (z b - z a)).

Definition normalizeVector (v : Vector3) : Vector3 :=
  let length := sqrt (x v * x v + y v * y v + z v * z v) in
  if length =? 0 then mkVector3 0 0 0
  else mkVector3 (x v / length) (y v / length) (z v / length).

(** What a tick of a running loop that has a destination does, as far
    as the numbers go: it stops for want of fuel, or spends the last fuel
    and stops at [position], or arrives, or moves on. *)
Inductive Tick : Type :=
| no_fuel
| depleted (position : Vector3)
| arrived (position : Vector3) (fuel : float)
| moved (position : Vector3) (fuel : float).

Definition updatePosition (MOVEMENT_SPEED FUEL_CONSUMPTION_RATE : float)
    (currentPosition destination : Vector3) (currentFuel : float) : Tick :=
  let direction := normalizeVector (mkVector3
    (x destination - x currentPosition)
    (y destination - y currentPosition)
    (z destination - z currentPosition)) in
  let distance := calculateDistance currentPosition destination in
  let deltaTime := UPDATE_INTERVAL / 1000 in
  let moveDistance := MOVEMENT_SPEED * deltaTime in
  let fuelConsumed := moveDistance * FUEL_CONSUMPTION_RATE in
  if currentFuel <=? 0 then no_fuel
  else if currentFuel - fuelConsumed <=? 0 then
    let possibleDistance := currentFuel / FUEL_CONSUMPTION_RATE in
    depleted (mkVector3
      (x currentPosition + x direction * possibleDistance)
      (y currentPosition + y direction * possibleDistance)
      (z currentPosition + z direction * possibleDistance))
  else
    let fuel := Math_max 0 (currentFuel - fuelConsumed) in
    if distance <=? ARRIVAL_THRESHOLD then arrived destination fuel
    else
      let movementThisFrame := Math_min moveDistance distance in
      moved (mkVector3
        (x currentPosition + x direction * movementThisFrame)
        (y currentPosition + y direction * movementThisFrame)
        (z currentPosition + z direction * movementThisFrame))
        fuel.

(** The candidate travel distance of a tick. *)
Definition moveDistance (MOVEMENT_SPEED : float) : float :=
  MOVEMENT_SPEED * (UPDATE_INTERVAL / 1000).

End Binary64.
(** ** Numbers and strings *)

Lemma nle_Fin_true (a b : R) : a <= b -> nle (Fin a) (Fin b) = true.
Proof.
  intros H. simpl. destruct (Rle_dec a b); [reflexivity | contradiction].
Qed.

Lemma nle_Fin_false (a b : R) : b < a -> nle (Fin a) (Fin b) = false.
Proof. intros H. simpl. destruct (Rle_dec a b); [lra | reflexivity]. Qed.

Lemma nle_true_inv (a b : num) :
  nle a b = true -> exists p q, a = Fin p /\ b = Fin q /\ p <= q.
Proof.
  destruct a as [p|], b as [q|]; simpl; try discriminate.
  destruct (Rle_dec p q); [eauto | discriminate].
Qed.

Lemma parseFloat_toString (a : num) : parseFloat (toString a) = a.
Proof. destruct a; reflexivity. Qed.

Lemma toString_truthy (a : num) : text_truthy (toString a) = true.
Proof. destruct a; reflexivity. Qed.

Lemma toString_inj (a b : num) : toString a = toString b -> a = b.
Proof.
  intros H. rewrite <- (parseFloat_toString a), H. apply parseFloat_toString.
Qed.

Lemma Z_toString_inj (s t : Z) : Z_toString s = Z_toString t -> s = t.
Proof.
  unfold Z_toString. intros H. apply toString_inj in H.
  injection H as H. by apply eq_IZR.
Qed.

(** ** The hash *)

Lemma getCurrentFuel_written (w : World) (a : num) :
  state w !! "fuel" = Some (toString a) -> getCurrentFuel w = a.
Proof.
  intros H. unfold getCurrentFuel. rewrite H, toString_truthy.
  apply parseFloat_toString.
Qed.

Lemma updateData_lookup (updates : list (string * value))
    (acc : gmap string text) (key : string) :
  foldl (fun acc kv => <[fst kv := redis_value (fst kv) (snd kv)]> acc)
        acc updates !! key
  = match supplied key updates with
    | Some v => Some (redis_value key v)
    | None => acc !! key
    end.
Proof.
  revert acc. induction updates as [|[k v] rest IH]; intros acc; simpl.
  - reflexivity.
  - rewrite IH. destruct (supplied key rest); [reflexivity|].
    case_decide as Hk.
    + subst k. by rewrite lookup_insert_eq.
    + by rewrite lookup_insert_ne.
Qed.

Lemma updateState_lookup (updates : list (string * value)) (w : World)
    (key : string) :
  state (fst (updateState updates w)) !! key
  = if decide (key = "timestamp") then Some (Z_toString (now w))
    else match supplied key updates with
         | Some v => Some (redis_value key v)
         | None => state w !! key
         end.
Proof.
  unfold updateState, hSet. simpl. rewrite lookup_union.
  case_decide as Hk.
  - subst key. rewrite lookup_insert_eq.
    by destruct (state w !! "timestamp").
  - rewrite lookup_insert_ne by done. rewrite updateData_lookup.
    destruct (supplied key updates); simpl.
    + by destruct (state w !! key).
    + rewrite lookup_empty. by destruct (state w !! key).
Qed.

(** ** Reading the state *)

Lemma read_vector_default (field : option text) :
  unusable_vector field -> read_vector field = zeros.
Proof.
  intros [-> | [-> | [[pf ->] | (v & -> & Hv)]]]; try reflexivity.
  unfold read_vector. simpl.
  destruct v; simpl; try reflexivity.
  - by destruct b.
  - by destruct (Req_dec_T r 0).
  - by destruct (text_truthy s).
  - by destruct (Hv l).
Qed.

Lemma read_destination_default (field : option text) :
  unusable_destination field -> read_destination field = JNull.
Proof. by intros [-> | [-> | [pf ->]]]. Qed.

Lemma getState_nonempty (w : World) :
  state w <> ∅ ->
  getState w = Some (State.mk
    (read_vector (state w !! "position"))
    (read_vector (state w !! "velocity"))
    (read_destination (state w !! "destination"))
    (getCurrentFuel w)
    (match state w !! "target_planet_id" with
     | Some s => if text_truthy s then Some s else None
     | None => None
     end)
    (match state w !! "isMoving" with
     | Some s => is_str_true s
     | None => false
     end)).
Proof.
  intros H. unfold getState, getState_body.
  case_decide as Hs; [|reflexivity].
  by apply map_size_empty_iff in Hs.
Qed.

Lemma getState_empty (w : World) : state w = ∅ -> getState w = None.
Proof.
  intros H. unfold getState, getState_body. rewrite H.
  by rewrite map_size_empty.
Qed.

(** C5 (as amended).  [getState] never throws.  It reads an empty hash as
    no state; of a hash with some field it returns a state in which a
    position or velocity that is missing, empty, rejected by [JSON.parse]
    or not an array is [[0,0,0]], a destination that is missing, empty or
    rejected by [JSON.parse] is [null], a missing or empty fuel is 100 and
    [isMoving] is false unless the field holds ['true'].  [getCurrentFuel]
    gives 100 for a missing or empty fuel too. *)
Theorem read_defaults (w : World) :
  (exists r, getState_body w = Ok r /\ getState w = r) /\
  (state w = ∅ -> getState w = None) /\
  (missing_or_empty (state w !! "fuel") -> getCurrentFuel w = Fin 100) /\
  (state w <> ∅ ->
   exists st, getState w = Some st /\
     (unusable_vector (state w !! "position") -> State.position st = zeros) /\
     (unusable_vector (state w !! "velocity") -> State.velocity st = zeros) /\
     (unusable_destination (state w !! "destination") ->
        State.destination st = JNull) /\
     (missing_or_empty (state w !! "fuel") -> State.fuel st = Fin 100) /\
     (state w !! "isMoving" <> Some str_true -> State.isMoving st = false)).
Proof.
  assert (Hfuel : missing_or_empty (state w !! "fuel") ->
                  getCurrentFuel w = Fin 100).
  { unfold getCurrentFuel. by intros [-> | ->]. }
  split; [|split; [|split]].
  - unfold getState, getState_body. case_decide; eauto.
  - apply getState_empty.
  - exact Hfuel.
  - intros Hne. eexists. split; [by apply getState_nonempty|]. simpl.
    split; [apply read_vector_default|].
    split; [apply read_vector_default|].
    split; [apply read_destination_default|].
    split; [exact Hfuel|].
    intros Hm. destruct (state w !! "isMoving") as [s|]; [|reflexivity].
    destruct s as [|v|]; try reflexivity.
    destruct v; try reflexivity. destruct b; [|reflexivity].
    by destruct Hm.
Qed.

Lemma read_defaults_witness :
  let w :=
    created (<["fuel" := TEmpty]> (<["position" := TOther NaN]> ∅)) 0 in
  exists st, getState w = Some st /\ State.position st = zeros /\
    State.fuel st = Fin 100 /\ State.isMoving st = false.
Proof.
  intros w.
  destruct (read_defaults w) as (_ & _ & _ & H).
  destruct H as (st & Hst & Hp & _ & _ & Hf & Hm).
  { apply insert_non_empty. }
  exists st. split; [exact Hst|]. split; [|split].
  - apply Hp. right. right. left. exists NaN. simpl.
    rewrite lookup_insert_ne by done. by rewrite lookup_insert_eq.
  - apply Hf. right. simpl. by rewrite lookup_insert_eq.
  - apply Hm. simpl. rewrite !lookup_insert_ne by done. by rewrite lookup_empty.
Defined.

(** The fuel of C5 as the claim states it: a fuel field that is not a
    number (such as ["abc"]) is read as [NaN], not as 100. *)
Lemma read_defaults_counterexample :
  let w := created (<[ "fuel" := TOther NaN ]> ∅) 0 in
  (State.fuel <$> getState w) = Some NaN /\
  getCurrentFuel w = NaN /\
  NaN <> Fin 100.
Proof.
  intros w. split; [|split].
  - rewrite getState_nonempty; [|apply insert_non_empty].
    simpl. unfold getCurrentFuel. simpl. rewrite lookup_insert_eq. reflexivity.
  - unfold getCurrentFuel. simpl. rewrite lookup_insert_eq. reflexivity.
  - discriminate.
Qed.

(** ** Effects of the methods on the object and on the hash *)

Ltac insert_lookup :=
  repeat (rewrite lookup_insert_ne by done);
  first [apply lookup_insert_eq | apply lookup_empty].

(** Rewrites the lookups of a field in a hash that [hSet] has written. *)
Ltac hash_lookup :=
  repeat match goal with
  | |- context [(?f ∪ ?h) !! ?k] =>
      first [ rewrite (lookup_union_r f h k) by insert_lookup
            | erewrite (lookup_union_Some_l f h k) by insert_lookup ]
  | |- context [<[?k := ?v]> ?h !! ?k] => rewrite (lookup_insert_eq h k v)
  | |- context [<[?k' := ?v]> ?h !! ?k] =>
      rewrite (lookup_insert_ne h k' k v) by done
  end.

(** Settles the tests [decide (key = "...")] on the name of a field. *)
Ltac keys := repeat case_decide; try congruence.

(** Reduces the projections of a world that the setters have built. *)
Ltac wsimpl :=
  cbn [isRunning intervalId currentPosition destination isNotifyingArrival
       state events commands now timeouts
       set_isRunning set_intervalId set_currentPosition set_destination
       set_isNotifyingArrival set_state set_now set_timeouts
       hSet hSet1 publish_event publish_command fst snd list_to_map foldr
       uncurry curry].

(** Proves that a method leaves a field as it was, by cases on its
    tests. *)
Ltac by_cases method :=
  unfold method; wsimpl;
  repeat (match goal with
          | |- context [if ?b then _ else _] => destruct b
          end; wsimpl);
  reflexivity.


Lemma getCurrentFuel_state (w w' : World) :
  state w' !! "fuel" = state w !! "fuel" ->
  getCurrentFuel w' = getCurrentFuel w.
Proof. unfold getCurrentFuel. by intros ->. Qed.

Lemma startInterpolation_currentPosition (w : World) :
  currentPosition (startInterpolation w) = currentPosition w.
Proof. by_cases startInterpolation. Qed.

Lemma startInterpolation_destination (w : World) :
  destination (startInterpolation w) = destination w.
Proof. by_cases startInterpolation. Qed.

Lemma startInterpolation_state (w : World) :
  state (startInterpolation w) = state w.
Proof. by_cases startInterpolation. Qed.

Lemma startInterpolation_events (w : World) :
  events (startInterpolation w) = events w.
Proof. by_cases startInterpolation. Qed.

Lemma startInterpolation_commands (w : World) :
  commands (startInterpolation w) = commands w.
Proof. by_cases startInterpolation. Qed.

Lemma startInterpolation_now (w : World) :
  now (startInterpolation w) = now w.
Proof. by_cases startInterpolation. Qed.

Lemma startInterpolation_timeouts (w : World) :
  timeouts (startInterpolation w) = timeouts w.
Proof. by_cases startInterpolation. Qed.

Lemma updateRedisPosition_isRunning (speed : R) (w : World) :
  isRunning (updateRedisPosition speed w) = isRunning w.
Proof. reflexivity. Qed.

Lemma updateRedisPosition_intervalId (speed : R) (w : World) :
  intervalId (updateRedisPosition speed w) = intervalId w.
Proof. reflexivity. Qed.

Lemma updateRedisPosition_currentPosition (speed : R) (w : World) :
  currentPosition (updateRedisPosition speed w) = currentPosition w.
Proof. reflexivity. Qed.

Lemma updateRedisPosition_destination (speed : R) (w : World) :
  destination (updateRedisPosition speed w) = destination w.
Proof. reflexivity. Qed.

Lemma updateRedisPosition_isNotifyingArrival (speed : R) (w : World) :
  isNotifyingArrival (updateRedisPosition speed w) = isNotifyingArrival w.
Proof. reflexivity. Qed.

Lemma updateRedisPosition_events (speed : R) (w : World) :
  events (updateRedisPosition speed w) = events w.
Proof. reflexivity. Qed.

Lemma updateRedisPosition_commands (speed : R) (w : World) :
  commands (updateRedisPosition speed w) = commands w.
Proof. reflexivity. Qed.

Lemma updateRedisPosition_now (speed : R) (w : World) :
  now (updateRedisPosition speed w) = now w.
Proof. reflexivity. Qed.

Lemma updateRedisPosition_timeouts (speed : R) (w : World) :
  timeouts (updateRedisPosition speed w) = timeouts w.
Proof. reflexivity. Qed.

Lemma updateFuel_isRunning (a : num) (w : World) :
  isRunning (updateFuel a w) = isRunning w.
Proof. reflexivity. Qed.

Lemma updateFuel_intervalId (a : num) (w : World) :
  intervalId (updateFuel a w) = intervalId w.
Proof. reflexivity. Qed.

Lemma updateFuel_currentPosition (a : num) (w : World) :
  currentPosition (updateFuel a w) = currentPosition w.
Proof. reflexivity. Qed.

Lemma updateFuel_destination (a : num) (w : World) :
  destination (updateFuel a w) = destination w.
Proof. reflexivity. Qed.

Lemma updateFuel_isNotifyingArrival (a : num) (w : World) :
  isNotifyingArrival (updateFuel a w) = isNotifyingArrival w.
Proof. reflexivity. Qed.

Lemma updateFuel_commands (a : num) (w : World) :
  commands (updateFuel a w) = commands w.
Proof. reflexivity. Qed.

Lemma updateFuel_now (a : num) (w : World) :
  now (updateFuel a w) = now w.
Proof. reflexivity. Qed.

Lemma updateFuel_timeouts (a : num) (w : World) :
  timeouts (updateFuel a w) = timeouts w.
Proof. reflexivity. Qed.

Lemma stopInterpolation_currentPosition (speed : R) (w : World) :
  currentPosition (stopInterpolation speed w) = currentPosition w.
Proof. by_cases stopInterpolation. Qed.

Lemma stopInterpolation_destination (speed : R) (w : World) :
  destination (stopInterpolation speed w) = destination w.
Proof. by_cases stopInterpolation. Qed.

Lemma stopInterpolation_isNotifyingArrival (speed : R) (w : World) :
  isNotifyingArrival (stopInterpolation speed w) = isNotifyingArrival w.
Proof. by_cases stopInterpolation. Qed.

Lemma stopInterpolation_events (speed : R) (w : World) :
  events (stopInterpolation speed w) = events w.
Proof. by_cases stopInterpolation. Qed.

Lemma stopInterpolation_commands (speed : R) (w : World) :
  commands (stopInterpolation speed w) = commands w.
Proof. by_cases stopInterpolation. Qed.

Lemma stopInterpolation_now (speed : R) (w : World) :
  now (stopInterpolation speed w) = now w.
Proof. by_cases stopInterpolation. Qed.

Lemma stopInterpolation_timeouts (speed : R) (w : World) :
  timeouts (stopInterpolation speed w) = timeouts w.
Proof. by_cases stopInterpolation. Qed.

Lemma notifyArrival_isRunning (p : Vector3) (w : World) :
  isRunning (notifyArrival p w) = isRunning w.
Proof. by_cases notifyArrival. Qed.

Lemma notifyArrival_intervalId (p : Vector3) (w : World) :
  intervalId (notifyArrival p w) = intervalId w.
Proof. by_cases notifyArrival. Qed.

Lemma notifyArrival_currentPosition (p : Vector3) (w : World) :
  currentPosition (notifyArrival p w) = currentPosition w.
Proof. by_cases notifyArrival. Qed.

Lemma notifyArrival_destination (p : Vector3) (w : World) :
  destination (notifyArrival p w) = destination w.
Proof. by_cases notifyArrival. Qed.

Lemma notifyArrival_commands (p : Vector3) (w : World) :
  commands (notifyArrival p w) = commands w.
Proof. by_cases notifyArrival. Qed.

Lemma notifyArrival_now (p : Vector3) (w : World) :
  now (notifyArrival p w) = now w.
Proof. by_cases notifyArrival. Qed.

Create Rewrite HintDb world.
#[export] Hint Rewrite
  startInterpolation_currentPosition
  startInterpolation_destination
  startInterpolation_state
  startInterpolation_events
  startInterpolation_commands
  startInterpolation_now
  startInterpolation_timeouts
  updateRedisPosition_isRunning
  updateRedisPosition_intervalId
  updateRedisPosition_currentPosition
  updateRedisPosition_destination
  updateRedisPosition_isNotifyingArrival
  updateRedisPosition_events
  updateRedisPosition_commands
  updateRedisPosition_now
  updateRedisPosition_timeouts
  updateFuel_isRunning
  updateFuel_intervalId
  updateFuel_currentPosition
  updateFuel_destination
  updateFuel_isNotifyingArrival
  updateFuel_commands
  updateFuel_now
  updateFuel_timeouts
  stopInterpolation_currentPosition
  stopInterpolation_destination
  stopInterpolation_isNotifyingArrival
  stopInterpolation_events
  stopInterpolation_commands
  stopInterpolation_now
  stopInterpolation_timeouts
  notifyArrival_isRunning
  notifyArrival_intervalId
  notifyArrival_currentPosition
  notifyArrival_destination
  notifyArrival_commands
  notifyArrival_now
  : world.

Lemma set_isRunning_fuel (b : bool) (w : World) :
  getCurrentFuel (set_isRunning b w) = getCurrentFuel w.
Proof. reflexivity. Qed.

Lemma set_intervalId_fuel (b : bool) (w : World) :
  getCurrentFuel (set_intervalId b w) = getCurrentFuel w.
Proof. reflexivity. Qed.

Lemma set_currentPosition_fuel (p : Vector3) (w : World) :
  getCurrentFuel (set_currentPosition p w) = getCurrentFuel w.
Proof. reflexivity. Qed.

Lemma set_destination_fuel (d : option Vector3) (w : World) :
  getCurrentFuel (set_destination d w) = getCurrentFuel w.
Proof. reflexivity. Qed.

Lemma set_isNotifyingArrival_fuel (b : bool) (w : World) :
  getCurrentFuel (set_isNotifyingArrival b w) = getCurrentFuel w.
Proof. reflexivity. Qed.

Lemma set_now_fuel (t : Z) (w : World) :
  getCurrentFuel (set_now t w) = getCurrentFuel w.
Proof. reflexivity. Qed.

Lemma set_timeouts_fuel (l : list Z) (w : World) :
  getCurrentFuel (set_timeouts l w) = getCurrentFuel w.
Proof. reflexivity. Qed.

Lemma publish_event_fuel (e : Event) (w : World) :
  getCurrentFuel (publish_event e w) = getCurrentFuel w.
Proof. reflexivity. Qed.

Lemma publish_command_fuel (c : Command) (w : World) :
  getCurrentFuel (publish_command c w) = getCurrentFuel w.
Proof. reflexivity. Qed.

Lemma hSet1_fuel (key : string) (v : text) (w : World) :
  key <> "fuel" -> getCurrentFuel (hSet1 key v w) = getCurrentFuel w.
Proof.
  intros H. apply getCurrentFuel_state. wsimpl. by rewrite lookup_insert_ne.
Qed.

#[export] Hint Rewrite
  set_isRunning_fuel set_intervalId_fuel set_currentPosition_fuel
  set_destination_fuel set_isNotifyingArrival_fuel set_now_fuel
  set_timeouts_fuel publish_event_fuel publish_command_fuel
  : world.
#[export] Hint Rewrite hSet1_fuel using done : world.

Lemma startInterpolation_isRunning (w : World) :
  isRunning (startInterpolation w) = true.
Proof.
  unfold startInterpolation. wsimpl.
  by destruct (isRunning w) eqn:E, (intervalId w).
Qed.

Lemma startInterpolation_intervalId (w : World) :
  intervalId (startInterpolation w)
  = if isRunning w then intervalId w else true.
Proof.
  unfold startInterpolation. wsimpl.
  destruct (isRunning w); [reflexivity|]. by destruct (intervalId w).
Qed.

Lemma startInterpolation_isNotifyingArrival (w : World) :
  isNotifyingArrival (startInterpolation w)
  = if isRunning w then isNotifyingArrival w else false.
Proof. by_cases startInterpolation. Qed.

Lemma startInterpolation_fuel (w : World) :
  getCurrentFuel (startInterpolation w) = getCurrentFuel w.
Proof. apply getCurrentFuel_state. by rewrite startInterpolation_state. Qed.

Lemma updateRedisPosition_lookup (speed : R) (w : World) (key : string) :
  state (updateRedisPosition speed w) !! key
  = if decide (key = "position") then
      Some (JSON_stringify (numbers (vector_numbers (currentPosition w))))
    else if decide (key = "velocity") then
      Some (JSON_stringify (numbers (calculateVelocity speed w)))
    else if decide (key = "destination") then
      Some (match destination w with
            | Some dest => JSON_stringify (numbers (vector_numbers dest))
            | None => TEmpty
            end)
    else if decide (key = "timestamp") then Some (Z_toString (now w))
    else if decide (key = "isMoving") then
      Some (if isRunning w then str_true else str_false)
    else if decide (key = "fuel") then Some (toString (getCurrentFuel w))
    else state w !! key.
Proof.
  unfold updateRedisPosition, calculateVelocity. wsimpl.
  destruct (destination w);
    repeat (case_decide; [subst key; hash_lookup; reflexivity|]);
    hash_lookup; reflexivity.
Qed.

Lemma updateRedisPosition_fuel (speed : R) (w : World) :
  getCurrentFuel (updateRedisPosition speed w) = getCurrentFuel w.
Proof.
  apply getCurrentFuel_written. by rewrite updateRedisPosition_lookup.
Qed.

Lemma updateFuel_state (a : num) (w : World) :
  state (updateFuel a w) = <["fuel" := toString a]> (state w).
Proof. reflexivity. Qed.

Lemma updateFuel_events (a : num) (w : World) :
  events (updateFuel a w) = events w ++ [fuel_update a].
Proof. reflexivity. Qed.

Lemma updateFuel_fuel (a : num) (w : World) :
  getCurrentFuel (updateFuel a w) = a.
Proof.
  apply getCurrentFuel_written. by rewrite updateFuel_state, lookup_insert_eq.
Qed.

Lemma stopInterpolation_isRunning (speed : R) (w : World) :
  isRunning (stopInterpolation speed w) = false.
Proof.
  unfold stopInterpolation. wsimpl.
  by destruct (isRunning w) eqn:E, (intervalId w).
Qed.

Lemma stopInterpolation_intervalId (speed : R) (w : World) :
  intervalId (stopInterpolation speed w)
  = if isRunning w then false else intervalId w.
Proof.
  unfold stopInterpolation. wsimpl.
  destruct (isRunning w); [|reflexivity].
  destruct (intervalId w) eqn:Hi; [reflexivity|exact Hi].
Qed.

Lemma stopInterpolation_stopped (speed : R) (w : World) :
  isRunning w = false -> stopInterpolation speed w = w.
Proof. unfold stopInterpolation. by intros ->. Qed.

Lemma stopInterpolation_lookup (speed : R) (w : World) (key : string) :
  isRunning w = true ->
  state (stopInterpolation speed w) !! key
  = if decide (key = "isMoving") then Some str_false
    else state (updateRedisPosition speed w) !! key.
Proof.
  intros Hr. unfold stopInterpolation. rewrite Hr. cbn [negb].
  assert (Hs : forall u,
    state (hSet1 "isMoving" str_false (updateRedisPosition speed u)) !! key
    = if decide (key = "isMoving") then Some str_false
      else state (updateRedisPosition speed u) !! key).
  { intros u. wsimpl. case_decide; [subst key|]; by hash_lookup. }
  destruct (intervalId (set_isRunning false w)); rewrite Hs;
    (case_decide; [reflexivity|]);
    rewrite !updateRedisPosition_lookup; wsimpl;
    repeat (case_decide; [reflexivity|]);
    (case_decide; [congruence|reflexivity]).
Qed.

Lemma stopInterpolation_fuel (speed : R) (w : World) :
  getCurrentFuel (stopInterpolation speed w) = getCurrentFuel w.
Proof.
  destruct (isRunning w) eqn:Hr.
  - apply getCurrentFuel_written.
    rewrite stopInterpolation_lookup by done.
    by rewrite updateRedisPosition_lookup.
  - by rewrite stopInterpolation_stopped.
Qed.

Lemma notifyArrival_isNotifyingArrival (p : Vector3) (w : World) :
  isNotifyingArrival (notifyArrival p w) = true.
Proof. unfold notifyArrival. by destruct (isNotifyingArrival w) eqn:E. Qed.

Lemma notifyArrival_events (p : Vector3) (w : World) :
  events (notifyArrival p w)
  = if isNotifyingArrival w then events w
    else events w ++ [arrival [x p; y p; z p] (getCurrentFuel w) (now w)].
Proof. by_cases notifyArrival. Qed.

Lemma notifyArrival_timeouts (p : Vector3) (w : World) :
  timeouts (notifyArrival p w)
  = if isNotifyingArrival w then timeouts w
    else timeouts w ++ [(now w + 1000)%Z].
Proof. by_cases notifyArrival. Qed.

Lemma notifyArrival_notifying (p : Vector3) (w : World) :
  isNotifyingArrival w = true -> notifyArrival p w = w.
Proof. unfold notifyArrival. by intros ->. Qed.

Lemma notifyArrival_lookup (p : Vector3) (w : World) (key : string) :
  isNotifyingArrival w = false ->
  state (notifyArrival p w) !! key
  = if decide (key = "timestamp") then Some (Z_toString (now w))
    else if decide (key = "position") then
      Some (JSON_stringify (numbers [x p; y p; z p]))
    else if decide (key = "velocity") then
      Some (JSON_stringify (numbers [Fin 0; Fin 0; Fin 0]))
    else if decide (key = "destination") then Some (TJson JNull)
    else if decide (key = "isMoving") then Some str_false
    else if decide (key = "fuel") then Some (toString (getCurrentFuel w))
    else state w !! key.
Proof.
  intros Hn. unfold notifyArrival. rewrite Hn.
  cbn [state set_timeouts]. rewrite updateState_lookup.
  case_decide; [reflexivity|].
  repeat (case_decide; [subst key; reflexivity|]).
  cbn [supplied fst snd]. repeat (case_decide; [congruence|]). reflexivity.
Qed.

Lemma notifyArrival_fuel (p : Vector3) (w : World) :
  getCurrentFuel (notifyArrival p w) = getCurrentFuel w.
Proof.
  destruct (isNotifyingArrival w) eqn:Hn.
  - by rewrite notifyArrival_notifying.
  - apply getCurrentFuel_written. by rewrite notifyArrival_lookup.
Qed.

#[export] Hint Rewrite
  startInterpolation_isRunning startInterpolation_intervalId
  startInterpolation_isNotifyingArrival
  startInterpolation_fuel
  updateRedisPosition_fuel updateFuel_state updateFuel_events updateFuel_fuel
  stopInterpolation_isRunning stopInterpolation_intervalId
  stopInterpolation_fuel
  notifyArrival_isNotifyingArrival notifyArrival_events
  notifyArrival_timeouts notifyArrival_fuel
  : world.

(** ** The branches of a tick *)

Section Ticks.

Variables speed rate : R.

Lemma updatePosition_idle (w : World) :
  destination w = None \/ isRunning w = false ->
  updatePosition speed rate w = w.
Proof.
  unfold updatePosition. intros [-> | ->]; [reflexivity|].
  by destruct (destination w).
Qed.

Lemma updatePosition_no_fuel (w : World) (dest : Vector3) (f : R) :
  isRunning w = true -> destination w = Some dest ->
  getCurrentFuel w = Fin f -> f <= 0 ->
  updatePosition speed rate w
  = stopInterpolation speed (set_destination None w).
Proof.
  intros Hr Hd Hf Hle. unfold updatePosition.
  rewrite Hd, Hr, Hf. cbn [negb]. by rewrite nle_Fin_true.
Qed.

Lemma updatePosition_depleted (w : World) (dest : Vector3) (f : R) :
  isRunning w = true -> destination w = Some dest ->
  getCurrentFuel w = Fin f -> 0 < f -> f - fuelConsumed speed rate <= 0 ->
  let p := advance (currentPosition w) (direction w dest) (Fin (f / rate)) in
  updatePosition speed rate w
  = stopInterpolation speed (set_destination None
      (publish_event (fuel_depleted (vector_numbers p) (now w))
        (updateRedisPosition speed
          (set_currentPosition p (updateFuel (Fin 0) w))))).
Proof.
  intros Hr Hd Hf Hpos Hle. unfold updatePosition.
  rewrite Hd, Hr, Hf. cbn [negb nsub ndiv].
  rewrite nle_Fin_false by done.
  rewrite nle_Fin_true by exact Hle. reflexivity.
Qed.

Lemma updatePosition_arrival (w : World) (dest : Vector3) (f d : R) :
  isRunning w = true -> destination w = Some dest ->
  getCurrentFuel w = Fin f -> 0 < f -> 0 < f - fuelConsumed speed rate ->
  calculateDistance (currentPosition w) dest = Fin d ->
  d <= ARRIVAL_THRESHOLD ->
  updatePosition speed rate w
  = notifyArrival dest (hSet1 "destination" TEmpty (set_destination None
      (stopInterpolation speed (set_currentPosition dest
        (updateFuel (Fin (f - fuelConsumed speed rate)) w))))).
Proof.
  intros Hr Hd Hf Hpos Hgt Hdist Hle. unfold updatePosition.
  rewrite Hd, Hr, Hf, Hdist. cbn [negb nsub nmax].
  rewrite !nle_Fin_false by done.
  rewrite nle_Fin_true by exact Hle.
  unfold fuelConsumed, moveDistance in *. rewrite Rmax_right by lra.
  reflexivity.
Qed.

Lemma updatePosition_moving (w : World) (dest : Vector3) (f : R) :
  isRunning w = true -> destination w = Some dest ->
  getCurrentFuel w = Fin f -> 0 < f -> 0 < f - fuelConsumed speed rate ->
  nle (calculateDistance (currentPosition w) dest) (Fin ARRIVAL_THRESHOLD)
  = false ->
  updatePosition speed rate w
  = updateRedisPosition speed
      (set_currentPosition
         (advance (currentPosition w) (direction w dest)
            (nmin (Fin (moveDistance speed))
                  (calculateDistance (currentPosition w) dest)))
         (updateFuel (Fin (f - fuelConsumed speed rate)) w)).
Proof.
  intros Hr Hd Hf Hpos Hgt Hdist. unfold updatePosition.
  rewrite Hd, Hr, Hf, Hdist. cbn [negb nsub nmax].
  rewrite !nle_Fin_false by done.
  unfold fuelConsumed, moveDistance in *. rewrite Rmax_right by lra.
  reflexivity.
Qed.

End Ticks.

(** ** Vectors of real components *)

Lemma sum_squares_nonneg (a b c : R) : 0 <= a * a + b * b + c * c.
Proof. nra. Qed.

Lemma nsqrt_nonneg (s : R) : 0 <= s -> nsqrt (Fin s) = Fin (sqrt s).
Proof. intros H. simpl. destruct (Rlt_dec s 0); [lra|reflexivity]. Qed.

Lemma calculateDistance_vec (a b c a' b' c' : R) :
  calculateDistance (vec a b c) (vec a' b' c')
  = Fin (norm (a' - a) (b' - b) (c' - c)).
Proof.
  unfold calculateDistance, norm. cbn [vec x y z nsub npow nadd].
  rewrite nsqrt_nonneg.
  - do 2 f_equal. ring.
  - pose proof (pow2_ge_0 (a' - a)). pose proof (pow2_ge_0 (b' - b)).
    pose proof (pow2_ge_0 (c' - c)). lra.
Qed.

Lemma normalizeVector_vec (a b c : R) :
  norm a b c <> 0 ->
  normalizeVector (vec a b c)
  = vec (a / norm a b c) (b / norm a b c) (c / norm a b c).
Proof.
  intros Hn. unfold normalizeVector. cbn [vec x y z nmul nadd].
  rewrite nsqrt_nonneg by apply sum_squares_nonneg.
  fold (norm a b c). cbn [is_zero].
  by destruct (Req_dec_T (norm a b c) 0).
Qed.

Lemma advance_vec (a b c u v w k : R) :
  advance (vec a b c) (vec u v w) (Fin k)
  = vec (a + u * k) (b + v * k) (c + w * k).
Proof. reflexivity. Qed.
(** ** Ticks *)

Lemma depletions_app (l1 l2 : list Event) :
  depletions (l1 ++ l2) = (depletions l1 + depletions l2)%nat.
Proof. induction l1 as [|[] l1 IH]; simpl; auto. Qed.

Lemma arrivals_app (l1 l2 : list Event) :
  arrivals (l1 ++ l2) = (arrivals l1 + arrivals l2)%nat.
Proof. induction l1 as [|[] l1 IH]; simpl; auto. Qed.

Lemma last_two {A : Type} (l : list A) (a b : A) :
  last (l ++ [a; b]) = Some b.
Proof.
  change [a; b] with ([a] ++ [b]). rewrite app_assoc. apply last_snoc.
Qed.

Ltac world := repeat (progress (autorewrite with world; wsimpl)).

Section Properties.

Variables speed rate : R.

(** The world a depletion tick leaves. *)
Lemma depletion_events (w : World) (dest : Vector3) (f : R) :
  isRunning w = true -> destination w = Some dest ->
  getCurrentFuel w = Fin f -> 0 < f -> f - fuelConsumed speed rate <= 0 ->
  events (updatePosition speed rate w)
  = events w ++
    [ fuel_update (Fin 0);
      fuel_depleted
        (vector_numbers
           (advance (currentPosition w) (direction w dest) (Fin (f / rate))))
        (now w) ].
Proof.
  intros Hr Hd Hf Hpos Hle.
  rewrite (updatePosition_depleted speed rate w dest f) by done.
  world. by rewrite <- app_assoc.
Qed.

Lemma towards_vec (a b c a' b' c' : R) :
  towards (vec a' b' c') (vec a b c) = vec (a' - a) (b' - b) (c' - c).
Proof. reflexivity. Qed.

(** The position a step of length [d] towards [dest] leads to, in the
    operations of the program: the offset to the destination is divided by
    its length, unless that length is zero. *)
Lemma advance_towards (p dest : Vector3) (d : num) :
  let dx := (x dest - x p)%num in
  let dy := (y dest - y p)%num in
  let dz := (z dest - z p)%num in
  let length := nsqrt (dx * dx + dy * dy + dz * dz)%num in
  advance p (normalizeVector (towards dest p)) d
  = if is_zero length
    then mkVector3 (x p + Fin 0 * d)%num (y p + Fin 0 * d)%num
                   (z p + Fin 0 * d)%num
    else mkVector3 (x p + dx / length * d)%num (y p + dy / length * d)%num
                   (z p + dz / length * d)%num.
Proof.
  intros dx dy dz length. unfold advance, normalizeVector, towards.
  cbn [x y z]. fold dx dy dz length. by destruct (is_zero length).
Qed.

(** C2 (as amended).  On a tick that finds fuel [f > 0] and for which the
    draw of the tick would bring it to zero or below, the position becomes
    the position plus the direction times [f / rate], the direction being
    the offset to the destination divided by its length (the zero vector
    when that length is zero); the fuel is then 0 and the new position is
    persisted, a [fuel_depleted] event is the last one published, the
    destination is cleared and the loop is stopped.  The arithmetic is the
    same on the binary64 numbers of the program: the tick ends the transit
    at the position plus the direction times [f / rate], each operation
    rounded. *)
Theorem depletion_tick :
  (forall (w : World) (dest : Vector3) (f : R),
     isRunning w = true -> destination w = Some dest ->
     getCurrentFuel w = Fin f -> 0 < f -> f - fuelConsumed speed rate <= 0 ->
     let w' := updatePosition speed rate w in
     let p := currentPosition w in
     let dx := (x dest - x p)%num in
     let dy := (y dest - y p)%num in
     let dz := (z dest - z p)%num in
     let length := nsqrt (dx * dx + dy * dy + dz * dz)%num in
     let possibleDistance := (Fin f / Fin rate)%num in
     currentPosition w'
     = (if is_zero length
        then mkVector3 (x p + Fin 0 * possibleDistance)%num
                       (y p + Fin 0 * possibleDistance)%num
                       (z p + Fin 0 * possibleDistance)%num
        else mkVector3 (x p + dx / length * possibleDistance)%num
                       (y p + dy / length * possibleDistance)%num
                       (z p + dz / length * possibleDistance)%num) /\
     getCurrentFuel w' = Fin 0 /\
     state w' !! "fuel" = Some (toString (Fin 0)) /\
     state w' !! "position"
     = Some (JSON_stringify (numbers (vector_numbers (currentPosition w')))) /\
     last (events w')
     = Some (fuel_depleted (vector_numbers (currentPosition w')) (now w)) /\
     depletions (events w') = S (depletions (events w)) /\
     destination w' = None /\
     state w' !! "destination" = Some TEmpty /\
     isRunning w' = false /\
     intervalId w' = false /\
     state w' !! "isMoving" = Some str_false /\
     updatePosition speed rate w' = w') /\
  (forall (s r f : float) (p dest : Binary64.Vector3),
     (f <=? 0)%float = false ->
     (f - Binary64.moveDistance s * r <=? 0)%float = true ->
     let dx := (Binary64.x dest - Binary64.x p)%float in
     let dy := (Binary64.y dest - Binary64.y p)%float in
     let dz := (Binary64.z dest - Binary64.z p)%float in
     let length := PrimFloat.sqrt (dx * dx + dy * dy + dz * dz)%float in
     let possibleDistance := (f / r)%float in
     Binary64.updatePosition s r p dest f
     = Binary64.depleted
         (if (length =? 0)%float
          then Binary64.mkVector3
                 (Binary64.x p + 0 * possibleDistance)%float
                 (Binary64.y p + 0 * possibleDistance)%float
                 (Binary64.z p + 0 * possibleDistance)%float
          else Binary64.mkVector3
                 (Binary64.x p + dx / length * possibleDistance)%float
                 (Binary64.y p + dy / length * possibleDistance)%float
                 (Binary64.z p + dz / length * possibleDistance)%float)).
Proof.
  split.
  - intros w dest f Hr Hd Hf Hpos Hle w' p dx dy dz length possibleDistance.
    assert (Hev := depletion_events w dest f Hr Hd Hf Hpos Hle).
    fold w' in Hev.
    assert (Hw' := updatePosition_depleted speed rate w dest f
                     Hr Hd Hf Hpos Hle).
    cbv zeta in Hw'. fold w' in Hw'.
    assert (Hp : currentPosition w'
      = advance (currentPosition w) (direction w dest) (Fin (f / rate))).
    { rewrite Hw'. by world. }
    rewrite <- Hp in Hev.
    assert (Hrun : isRunning w' = false) by (rewrite Hw'; by world).
    split.
    { rewrite Hp. unfold direction. apply advance_towards. }
    assert (Hfuel : state w' !! "fuel" = Some (toString (Fin 0))).
    { rewrite Hw'. rewrite stopInterpolation_lookup by (by world).
      rewrite updateRedisPosition_lookup. keys. by world. }
    split; [by apply getCurrentFuel_written|].
    split; [exact Hfuel|].
    split.
    { rewrite Hp, Hw'. rewrite stopInterpolation_lookup by (by world).
      rewrite updateRedisPosition_lookup. keys. by world. }
    split; [rewrite Hev; apply last_two|].
    split; [rewrite Hev, depletions_app; simpl; lia|].
    split; [rewrite Hw'; by world|].
    split.
    { rewrite Hw'. rewrite stopInterpolation_lookup by (by world).
      rewrite updateRedisPosition_lookup. keys. by world. }
    split; [exact Hrun|].
    split; [rewrite Hw'; world; by rewrite Hr|].
    split.
    { rewrite Hw'. rewrite stopInterpolation_lookup by (by world). keys. }
    apply updatePosition_idle. by right.
  - intros s r f p dest Hpos Hle dx dy dz length possibleDistance.
    unfold Binary64.updatePosition, Binary64.normalizeVector.
    unfold Binary64.moveDistance in Hle. rewrite Hpos, Hle.
    cbn [Binary64.x Binary64.y Binary64.z]. fold dx dy dz length.
    by destruct (length =? 0)%float.
Qed.

End Properties.

Section Fuel.

Variables speed rate : R.

(** C10.  A depletion tick (fuel [f > 0] that the draw of the tick would
    bring to zero or below) publishes two events: the [fuel_update] of
    the write that sets the fuel to 0, then the [fuel_depleted] event. *)
Theorem depletion_publishes_two_events (w : World) (dest : Vector3) (f : R) :
  isRunning w = true -> destination w = Some dest ->
  getCurrentFuel w = Fin f -> 0 < f -> f - fuelConsumed speed rate <= 0 ->
  let w' := updatePosition speed rate w in
  events w'
  = events w ++
    [ fuel_update (Fin 0);
      fuel_depleted (vector_numbers (currentPosition w')) (now w) ].
Proof.
  intros Hr Hd Hf Hpos Hle w'. unfold w'.
  rewrite (depletion_events speed rate w dest f) by done.
  rewrite (updatePosition_depleted speed rate w dest f) by done.
  by world.
Qed.

Lemma setDestination_world (dest : num * num * num) (w : World) :
  fst (setDestination dest w)
  = let '(d0, d1, d2) := dest in
    publish_command (move_to [d0; d1; d2])
      (startInterpolation
         (hSet (list_to_map
            [ ("destination", JSON_stringify (numbers [d0; d1; d2]));
              ("isMoving", str_true);
              ("fuel", toString (getCurrentFuel w)) ])
            (set_destination (Some (mkVector3 d0 d1 d2)) w))).
Proof. by destruct dest as [[d0 d1] d2]. Qed.

Lemma setDestination_lookup (dest : num * num * num) (w : World)
    (key : string) :
  state (fst (setDestination dest w)) !! key
  = if decide (key = "destination") then
      Some (JSON_stringify (numbers [dest.1.1; dest.1.2; dest.2]))
    else if decide (key = "isMoving") then Some str_true
    else if decide (key = "fuel") then Some (toString (getCurrentFuel w))
    else state w !! key.
Proof.
  rewrite setDestination_world. destruct dest as [[d0 d1] d2].
  world. repeat (case_decide; [subst key; by hash_lookup|]). by hash_lookup.
Qed.

Lemma setDestination_fuel (dest : num * num * num) (w : World) :
  getCurrentFuel (fst (setDestination dest w)) = getCurrentFuel w.
Proof.
  apply getCurrentFuel_written. rewrite setDestination_lookup. keys.
Qed.

(** C9.  [setDestination] succeeds whatever the fuel: with a fuel [f <= 0]
    it still answers [true], persists [isMoving = 'true'] and leaves the
    loop running; the next tick then clears the destination and stops the
    loop, without moving the ship and without publishing any event. *)
Theorem setDestination_without_fuel (dest : num * num * num) (w : World)
    (f : R) :
  intervalId w = isRunning w ->
  getCurrentFuel w = Fin f -> f <= 0 ->
  let r := setDestination dest w in
  let w1 := fst r in
  let w2 := updatePosition speed rate w1 in
  snd r = true /\
  destination w1 = Some (mkVector3 dest.1.1 dest.1.2 dest.2) /\
  state w1 !! "isMoving" = Some str_true /\
  isRunning w1 = true /\ intervalId w1 = true /\
  destination w2 = None /\
  isRunning w2 = false /\ intervalId w2 = false /\
  currentPosition w2 = currentPosition w /\
  events w2 = events w /\
  depletions (events w2) = depletions (events w).
Proof.
  intros Hi Hf Hle r w1 w2.
  assert (Hd1 : destination w1 = Some (mkVector3 dest.1.1 dest.1.2 dest.2)).
  { unfold w1, r. rewrite setDestination_world.
    destruct dest as [[d0 d1] d2]. by world. }
  assert (Hr1 : isRunning w1 = true).
  { unfold w1, r. rewrite setDestination_world.
    destruct dest as [[d0 d1] d2]. by world. }
  assert (Hf1 : getCurrentFuel w1 = Fin f).
  { unfold w1, r. by rewrite setDestination_fuel. }
  assert (Hw2 : w2 = stopInterpolation speed (set_destination None w1)).
  { by apply updatePosition_no_fuel
      with (dest := mkVector3 dest.1.1 dest.1.2 dest.2) (f := f). }
  assert (Hev : events w2 = events w).
  { rewrite Hw2. world. unfold w1, r. rewrite setDestination_world.
    destruct dest as [[d0 d1] d2]. by world. }
  split; [by destruct dest as [[d0 d1] d2]|].
  split; [exact Hd1|].
  split; [unfold w1, r; rewrite setDestination_lookup; keys|].
  split; [exact Hr1|].
  split.
  { unfold w1, r. rewrite setDestination_world.
    destruct dest as [[d0 d1] d2]. world. rewrite Hi.
    by destruct (isRunning w). }
  split; [rewrite Hw2; by world|].
  split; [rewrite Hw2; by world|].
  split; [rewrite Hw2; world; by rewrite Hr1|].
  split.
  { rewrite Hw2. world. unfold w1, r. rewrite setDestination_world.
    destruct dest as [[d0 d1] d2]. by world. }
  split; [exact Hev|]. by rewrite Hev.
Qed.

End Fuel.

Section FuelInvariant.

Variables speed rate : R.


Lemma on_command_fuel (command : Command) (w : World) :
  getCurrentFuel (on_command speed command w) = getCurrentFuel w.
Proof.
  destruct command as [dest| |]; cbn [on_command]; [|by world|reflexivity].
  wsimpl. destruct (isRunning w); cbn [negb]; by world.
Qed.

Lemma elapse_state (dt : Z) (w : World) : state (elapse dt w) = state w.
Proof.
  unfold elapse. wsimpl.
  by destruct (List.filter (fun d => (d <=? now w + dt)%Z) (timeouts w)).
Qed.


Lemma initialize_fuel (h : gmap string text) (t : Z) :
  (h = ∅ -> getCurrentFuel (initialize speed (created h t)) = Fin 100) /\
  (h <> ∅ -> getCurrentFuel (initialize speed (created h t))
             = getCurrentFuel (created h t)).
Proof.
  unfold initialize. split; intros Hh.
  - rewrite getState_empty by done. world.
    apply getCurrentFuel_written. rewrite updateState_lookup.
    cbn [supplied fst snd]. keys. reflexivity.
  - rewrite getState_nonempty by done. cbn [State.position State.destination].
    world.
    destruct (json_truthy (read_vector _)), (json_truthy (read_destination _));
      by world.
Qed.

Lemma getState_fuel (w : World) (st : State.t) :
  getState w = Some st -> State.fuel st = getCurrentFuel w.
Proof.
  unfold getState, getState_body. case_decide; [discriminate|].
  cbn [try_catch]. by intros [= <-].
Qed.


End FuelInvariant.



Lemma in_transit_fuel (fuel : R) (dest : Vector3) :
  getCurrentFuel (in_transit fuel dest) = Fin fuel.
Proof. apply getCurrentFuel_written. apply lookup_insert_eq. Qed.

Lemma default_draw : fuelConsumed DEFAULT_SPEED DEFAULT_RATE = 2433 / 200000.
Proof.
  unfold fuelConsumed, moveDistance.
  unfold DEFAULT_SPEED, DEFAULT_RATE, UPDATE_INTERVAL. field.
Qed.

Lemma depletion_tick_witness :
  let w := in_transit (1 / 1000) (vec 100 0 0) in
  let w' := updatePosition DEFAULT_SPEED DEFAULT_RATE w in
  getCurrentFuel w' = Fin 0 /\ destination w' = None /\ isRunning w' = false.
Proof.
  intros w w'.
  destruct (depletion_tick DEFAULT_SPEED DEFAULT_RATE) as [Htick _].
  destruct (Htick w (vec 100 0 0) (1 / 1000))
    as (_ & Hfuel & _ & _ & _ & _ & Hdest & _ & Hrun & _).
  - reflexivity.
  - reflexivity.
  - apply in_transit_fuel.
  - lra.
  - rewrite default_draw. lra.
  - by repeat split.
Defined.

(** C2 as the claim states it, on the numbers of the program.  With a
    speed of 269.7 and a rate of 0.624, a tick that finds a fuel of
    8.41464 spends it all (the draw of a full tick rounds to that very
    fuel), and moves the ship by 13.485000000000001, which is more than
    the 13.485 of a full tick.  And towards a destination at 1e200 the
    squared offset overflows, the direction is the zero vector, and the
    tick that spends the last fuel leaves the ship where it was, though
    the fuel would pay for a positive distance. *)
Lemma depletion_tick_counterexample :
  let origin := Binary64.mkVector3 0 0 0 in
  (8.41464 - Binary64.moveDistance 269.7 * 0.624 <=? 0)%float = true /\
  Binary64.updatePosition 269.7 0.624 origin
    (Binary64.mkVector3 100 0 0) 8.41464
  = Binary64.depleted (Binary64.mkVector3 (8.41464 / 0.624) 0 0) /\
  (Binary64.moveDistance 269.7 <? 8.41464 / 0.624)%float = true /\
  Binary64.updatePosition 24.33 0.01 origin
    (Binary64.mkVector3 1e200 0 0) 0.001
  = Binary64.depleted origin /\
  (0 <? 0.001 / 0.01)%float = true.
Proof. repeat apply conj; vm_compute; reflexivity. Qed.

Lemma depletion_publishes_two_events_witness :
  let w := in_transit (1 / 1000) (vec 100 0 0) in
  let w' := updatePosition DEFAULT_SPEED DEFAULT_RATE w in
  events w'
  = [ fuel_update (Fin 0);
      fuel_depleted (vector_numbers (currentPosition w')) 0 ].
Proof.
  intros w w'.
  apply (depletion_publishes_two_events DEFAULT_SPEED DEFAULT_RATE w
           (vec 100 0 0) (1 / 1000)).
  - reflexivity.
  - reflexivity.
  - apply in_transit_fuel.
  - lra.
  - rewrite default_draw. lra.
Defined.

Lemma setDestination_without_fuel_witness :
  let w := created (<["fuel" := toString (Fin 0)]> ∅) 0 in
  let r := setDestination (Fin 100, Fin 0, Fin 0) w in
  let w2 := updatePosition DEFAULT_SPEED DEFAULT_RATE (fst r) in
  snd r = true /\ isRunning (fst r) = true /\
  destination w2 = None /\ isRunning w2 = false /\
  currentPosition w2 = currentPosition w /\ events w2 = [].
Proof.
  intros w r w2.
  destruct (setDestination_without_fuel DEFAULT_SPEED DEFAULT_RATE
              (Fin 100, Fin 0, Fin 0) w 0)
    as (Hok & _ & _ & Hrun & _ & Hdest & Hstop & _ & Hpos & Hev & _).
  - reflexivity.
  - apply getCurrentFuel_written. apply lookup_insert_eq.
  - lra.
  - by repeat split.
Defined.

Section RoundTrip.

Variable speed : R.

(** C6.  [setDestination d] answers [true], and a [getState] that follows
    it at once returns a state whose destination is [d], whose [isMoving]
    is true and whose fuel is the fuel that was read before the call.  The
    [move_to] command that [setDestination] publishes, once delivered to
    the listener of the same process, does not change what is read. *)
Theorem setDestination_getState (d0 d1 d2 : R) (w : World) :
  let r := setDestination (Fin d0, Fin d1, Fin d2) w in
  snd r = true /\
  (exists st, getState (fst r) = Some st /\
     State.destination st = JArr [JNum d0; JNum d1; JNum d2] /\
     State.isMoving st = true /\
     State.fuel st = getCurrentFuel w /\
     (forall st0, getState w = Some st0 -> State.fuel st = State.fuel st0)) /\
  commands (fst r) = commands w ++ [move_to [Fin d0; Fin d1; Fin d2]] /\
  getState (on_command speed (move_to [Fin d0; Fin d1; Fin d2]) (fst r))
  = getState (fst r).
Proof.
  intros r. split; [reflexivity|].
  assert (Hne : state (fst r) <> ∅).
  { intros Hempty. apply (f_equal (fun m => m !! "fuel")) in Hempty.
    unfold r in Hempty. rewrite setDestination_lookup, lookup_empty in Hempty.
    revert Hempty. keys. }
  split; [|split].
  - eexists. split; [by apply getState_nonempty|].
    cbn [State.destination State.isMoving State.fuel].
    unfold r. rewrite !setDestination_lookup, setDestination_fuel.
    repeat split; [keys..|].
    intros st0 Hst0. symmetry. by apply getState_fuel.
  - unfold r. rewrite setDestination_world. by world.
  - assert (Hr : isRunning (fst r) = true).
    { unfold r. rewrite setDestination_world. by world. }
    cbn [on_command]. wsimpl. by rewrite Hr.
Qed.

End RoundTrip.

(** ** What every reachable state satisfies *)

Section Consistent.

Variables speed rate : R.

(** The five shapes of the world a tick leaves. *)
Lemma updatePosition_cases (w : World) :
  updatePosition speed rate w = w \/
  exists dest, destination w = Some dest /\ isRunning w = true /\
    (updatePosition speed rate w
       = stopInterpolation speed (set_destination None w) \/
     (exists p e,
        updatePosition speed rate w
        = stopInterpolation speed (set_destination None
            (publish_event e (updateRedisPosition speed
               (set_currentPosition p (updateFuel (Fin 0) w)))))) \/
     (exists a,
        updatePosition speed rate w
        = notifyArrival dest (hSet1 "destination" TEmpty
            (set_destination None (stopInterpolation speed
               (set_currentPosition dest (updateFuel a w)))))) \/
     (exists a p,
        updatePosition speed rate w
        = updateRedisPosition speed
            (set_currentPosition p (updateFuel a w)))).
Proof.
  unfold updatePosition.
  destruct (destination w) as [dest|] eqn:Hd; [|by left].
  destruct (isRunning w) eqn:Hr; cbn [negb]; [|by left].
  right. exists dest. split; [reflexivity|]. split; [reflexivity|].
  destruct (nle (getCurrentFuel w) (Fin 0)); [by left|].
  destruct (nle _ (Fin 0)); [right; left; eauto|].
  destruct (nle _ (Fin ARRIVAL_THRESHOLD)); right; right; [left|right]; eauto.
Qed.

(** The hash once a running loop has been stopped. *)
Lemma stopped_lookup (w : World) (key : string) :
  isRunning w = true ->
  state (stopInterpolation speed w) !! key
  = if decide (key = "isMoving") then Some str_false
    else if decide (key = "timestamp") then Some (Z_toString (now w))
    else state (stopInterpolation speed w) !! key.
Proof.
  intros Hr. rewrite stopInterpolation_lookup by done.
  rewrite updateRedisPosition_lookup. keys.
Qed.

Lemma consistent_stopped (w : World) :
  isRunning w = true ->
  consistent (stopInterpolation speed (set_destination None w)).
Proof.
  intros Hr. split; world.
  - by rewrite Hr.
  - reflexivity.
  - discriminate.
  - intros _. rewrite stopped_lookup by done. keys.
  - intros _. rewrite stopInterpolation_lookup by done.
    rewrite updateRedisPosition_lookup. keys. reflexivity.
  - exists (now w). split; [|lia]. rewrite stopped_lookup by done.
    keys. reflexivity.
Qed.

Lemma consistent_arrived (w : World) (p : Vector3) :
  isRunning w = true ->
  consistent (notifyArrival p (hSet1 "destination" TEmpty
    (set_destination None (stopInterpolation speed w)))).
Proof.
  intros Hr.
  set (u := hSet1 "destination" TEmpty
              (set_destination None (stopInterpolation speed w))).
  assert (Hnow : now u = now w) by (unfold u; by world).
  assert (Hu : forall key, key <> "destination" ->
            state u !! key = state (stopInterpolation speed w) !! key).
  { intros key Hk. unfold u. wsimpl. by rewrite lookup_insert_ne. }
  split; world.
  - unfold u. world. by rewrite Hr.
  - unfold u. by world.
  - unfold u. world. discriminate.
  - intros _. destruct (isNotifyingArrival u) eqn:Hn.
    + rewrite notifyArrival_notifying by done.
      rewrite Hu by done. rewrite stopped_lookup by done. keys.
    + rewrite notifyArrival_lookup by done. keys.
  - intros _. destruct (isNotifyingArrival u) eqn:Hn.
    + rewrite notifyArrival_notifying by done.
      unfold u. wsimpl. by rewrite lookup_insert_eq.
    + rewrite notifyArrival_lookup by done. keys. reflexivity.
  - exists (now w). split; [|lia]. destruct (isNotifyingArrival u) eqn:Hn.
    + rewrite notifyArrival_notifying by done.
      rewrite Hu by done. rewrite stopped_lookup by done. keys.
    + rewrite notifyArrival_lookup by done. rewrite Hnow. keys.
Qed.

Lemma consistent_updatePosition (w : World) :
  consistent w -> consistent (updatePosition speed rate w).
Proof.
  intros Hw.
  destruct (updatePosition_cases w)
    as [-> | (dest & Hd & Hr &
             [-> | [(p & e & ->) | [(a & ->) | (a & p & ->)]]])].
  - exact Hw.
  - by apply consistent_stopped.
  - by apply consistent_stopped.
  - by apply consistent_arrived.
  - destruct Hw as [H1 H2 H3 H4 H4' H5]. split; world; try done.
    + congruence.
    + congruence.
    + exists (now w). split; [|lia]. rewrite updateRedisPosition_lookup.
      keys. reflexivity.
Qed.

Lemma consistent_startInterpolation (w : World) (d : Vector3) :
  consistent w -> consistent (startInterpolation (set_destination (Some d) w)).
Proof.
  intros [H1 H2 H3 H4 H4' H5]. split; world.
  - rewrite H1. by destruct (isRunning w).
  - discriminate.
  - intros _. destruct (isRunning w); auto.
  - discriminate.
  - discriminate.
  - exact H5.
Qed.

Lemma consistent_setDestination (w : World) (dest : num * num * num) :
  consistent w -> consistent (fst (setDestination dest w)).
Proof.
  intros Hw. rewrite setDestination_world. destruct dest as [[d0 d1] d2].
  destruct Hw as [H1 H2 H3 H4 H4' H5]. split; world.
  - rewrite H1. by destruct (isRunning w).
  - discriminate.
  - intros _. destruct (isRunning w); auto.
  - discriminate.
  - discriminate.
  - destruct H5 as (t & Ht & Hle). exists t. split; [|exact Hle].
    rewrite <- Ht. by hash_lookup.
Qed.

Lemma consistent_on_command (w : World) (command : Command) :
  consistent w -> consistent (on_command speed command w).
Proof.
  intros Hw. destruct command as [dest| |]; cbn [on_command].
  - wsimpl. destruct (isRunning w) eqn:Hr; cbn [negb].
    + destruct Hw as [H1 H2 H3 H4 H4' H5]. split; wsimpl; try done.
      rewrite Hr. discriminate.
    + by apply consistent_startInterpolation.
  - destruct (isRunning w) eqn:Hr.
    + by apply consistent_stopped.
    + rewrite stopInterpolation_stopped by done.
      destruct Hw as [H1 H2 H3 H4 H4' H5]. split; wsimpl; done.
  - exact Hw.
Qed.

Lemma elapse_now (dt : Z) (w : World) : now (elapse dt w) = (now w + dt)%Z.
Proof.
  unfold elapse. wsimpl.
  by destruct (List.filter (fun d => (d <=? now w + dt)%Z) (timeouts w)).
Qed.

Lemma elapse_object (dt : Z) (w : World) :
  isRunning (elapse dt w) = isRunning w /\
  intervalId (elapse dt w) = intervalId w /\
  currentPosition (elapse dt w) = currentPosition w /\
  destination (elapse dt w) = destination w /\
  events (elapse dt w) = events w /\
  (isNotifyingArrival w = false -> isNotifyingArrival (elapse dt w) = false).
Proof.
  unfold elapse. wsimpl.
  by destruct (List.filter (fun d => (d <=? now w + dt)%Z) (timeouts w)).
Qed.

Lemma consistent_elapse (w : World) (dt : Z) :
  (0 <= dt)%Z -> consistent w -> consistent (elapse dt w).
Proof.
  intros Hdt [H1 H2 H3 H4 H4' H5].
  destruct (elapse_object dt w) as (E1 & E2 & E3 & E4 & E5 & E6).
  split; rewrite ?E1, ?E2, ?E4, ?elapse_state, ?elapse_now; auto.
  destruct H5 as (t & Ht & Hle). exists t. split; [exact Ht|lia].
Qed.

Lemma consistent_step (w w' : World) :
  step speed rate w w' -> consistent w -> consistent w'.
Proof.
  intros [u _|u dest|u command|u dt Hdt] Hw.
  - by apply consistent_updatePosition.
  - by apply consistent_setDestination.
  - by apply consistent_on_command.
  - by apply consistent_elapse.
Qed.

Lemma consistent_initialize (h : gmap string text) (t : Z) :
  consistent (initialize speed (created h t)).
Proof.
  unfold initialize.
  assert (Hposition : forall (p : Vector3) (d : option Vector3)
                             (hh : gmap string text) (b : bool),
    (b = false -> d = None) ->
    consistent (updateRedisPosition speed
      (mkWorld b b p d false hh [] [] t []))).
  { intros p d hh b Hb. split; world; auto.
    - intros Hr. rewrite updateRedisPosition_lookup. wsimpl. rewrite Hr. keys.
    - intros Hr. rewrite updateRedisPosition_lookup. wsimpl.
      rewrite (Hb Hr). keys. reflexivity.
    - exists t. split; [|lia]. rewrite updateRedisPosition_lookup.
      keys. reflexivity. }
  destruct (getState (created h t)) as [st|].
  - destruct (json_truthy (State.position st)),
             (json_truthy (State.destination st));
      first [ refine (Hposition _ (Some _) h true _); discriminate
            | refine (Hposition _ None h false _); reflexivity ].
  - refine (Hposition _ None _ false _); reflexivity.
Qed.

Lemma consistent_reachable (h : gmap string text) (t : Z) (w : World) :
  reachable speed rate h t w -> consistent w.
Proof.
  induction 1 as [|w w' _ IH Hstep].
  - apply consistent_initialize.
  - by apply (consistent_step w w').
Qed.

End Consistent.

(** ** Stopping, and the writes to the hash *)

Section StopAndWrites.

Variables speed rate : R.

Lemma ticks_stopped (n : nat) (w : World) :
  isRunning w = false -> ticks speed rate n w = w.
Proof.
  intros Hr. induction n as [|n IH]; [reflexivity|].
  cbn [ticks]. rewrite IH. apply updatePosition_idle. by right.
Qed.

Lemma set_destination_same (w : World) :
  destination w = None -> set_destination None w = w.
Proof. destruct w. cbn. by intros ->. Qed.

Lemma stop_idempotent (w : World) :
  consistent w -> isRunning w = false -> on_command speed stop w = w.
Proof.
  intros Hw Hr. cbn [on_command].
  rewrite stopInterpolation_stopped by done.
  apply set_destination_same. by apply Hw.
Qed.

(** C7.  In any state the process reaches, a [stop] command clears the
    destination, leaves the loop stopped with [isMoving = 'false']
    persisted (which [getState] reports, with no destination), and no
    later tick changes the position; a second [stop] changes nothing, and
    on a loop that is already stopped [stopInterpolation], reached by the
    stop command, by depletion or by arrival, changes nothing either, as a
    tick does. *)
Theorem stop_clears_and_is_idempotent (h : gmap string text) (t : Z)
    (w : World) :
  reachable speed rate h t w ->
  let w1 := on_command speed stop w in
  destination w1 = None /\
  isRunning w1 = false /\ intervalId w1 = false /\
  state w1 !! "isMoving" = Some str_false /\
  (exists st, getState w1 = Some st /\
     State.isMoving st = false /\ State.destination st = JNull) /\
  (forall n, ticks speed rate n w1 = w1) /\
  on_command speed stop w1 = w1 /\
  (forall u, isRunning u = false ->
     stopInterpolation speed u = u /\ updatePosition speed rate u = u) /\
  (forall u, consistent u -> isRunning u = false ->
     on_command speed stop u = u).
Proof.
  intros Hreach w1.
  assert (Hw : consistent w) by (by eapply consistent_reachable).
  assert (Hw1 : consistent w1) by (by apply consistent_on_command).
  assert (Hr1 : isRunning w1 = false).
  { unfold w1. cbn [on_command]. by world. }
  assert (Hm : state w1 !! "isMoving" = Some str_false) by (by apply Hw1).
  split; [by apply Hw1|]. split; [exact Hr1|].
  split; [by rewrite (interval_running w1 Hw1)|].
  split; [exact Hm|]. split.
  { eexists. split.
    - apply getState_nonempty. intros Hempty.
      by rewrite Hempty, lookup_empty in Hm.
    - cbn [State.isMoving State.destination]. rewrite Hm.
      split; [reflexivity|]. by apply Hw1. }
  split; [intros n; by apply ticks_stopped|].
  split; [by apply stop_idempotent|].
  split.
  - intros u Hu. split; [by apply stopInterpolation_stopped|].
    apply updatePosition_idle. by right.
  - apply stop_idempotent.
Qed.

(** What a step leaves in the [timestamp] field. *)
Lemma step_timestamp (w w' : World) :
  step speed rate w w' ->
  (state w' !! "timestamp" = state w !! "timestamp" \/
   state w' !! "timestamp" = Some (Z_toString (now w))) /\
  (now w <= now w')%Z.
Proof.
  intros [u _|u dest|u command|u dt Hdt].
  - destruct (updatePosition_cases speed rate u)
      as [-> | (dest & Hd & Hr &
               [-> | [(p & e & ->) | [(a & ->) | (a & p & ->)]]])].
    + split; [by left|lia].
    + split; [|world; lia]. right. rewrite stopped_lookup by done. keys.
      reflexivity.
    + split; [|world; lia]. right. rewrite stopped_lookup by (by world). keys.
      reflexivity.
    + split; [|world; lia]. right.
      match goal with |- context [notifyArrival dest ?v] => set (u' := v) end.
      destruct (isNotifyingArrival u') eqn:Hn.
      * rewrite notifyArrival_notifying by done. unfold u'. wsimpl.
        rewrite lookup_insert_ne by done.
        rewrite stopped_lookup by (by world). keys. reflexivity.
      * rewrite notifyArrival_lookup by done. keys. unfold u'. by world.
    + split; [|world; lia]. right. rewrite updateRedisPosition_lookup. keys.
      reflexivity.
  - split.
    + left. rewrite setDestination_lookup. keys.
    + rewrite setDestination_world. destruct dest as [[d0 d1] d2]. world. lia.
  - destruct command as [dest| |]; cbn [on_command].
    + split; [left|]; wsimpl; destruct (isRunning u); cbn [negb]; world;
        reflexivity || lia.
    + destruct (isRunning u) eqn:Hr.
      * split; [|world; lia]. right. rewrite stopped_lookup by done. keys.
        reflexivity.
      * rewrite stopInterpolation_stopped by done. split; [by left|wsimpl; lia].
    + split; [by left|lia].
  - rewrite elapse_state, elapse_now. split; [by left|lia].
Qed.

(** C8 (as amended).  The two writes to the hash ([hSet] with an object
    and with one field) set the supplied fields and leave every other
    field as it was.  [updateState] answers [true], sets the timestamp
    to the current time and every supplied field to its converted value,
    and leaves every other field as it was.  The write of
    [setDestination] changes the fields [destination], [isMoving] and
    [fuel] only: it leaves the timestamp as it was.  In a run of the
    process the persisted timestamp never decreases and never exceeds the
    clock, and an [updateState] made in a reachable state does not
    decrease it either. *)
Theorem writes_merge_and_timestamp_grows :
  (forall fields w key,
     state (hSet fields w) !! key
     = match fields !! key with
       | Some v => Some v
       | None => state w !! key
       end) /\
  (forall field v w key,
     state (hSet1 field v w) !! key
     = if decide (key = field) then Some v else state w !! key) /\
  (forall updates w,
     let r := updateState updates w in
     snd r = true /\
     state (fst r) !! "timestamp" = Some (Z_toString (now w)) /\
     forall key, key <> "timestamp" ->
       state (fst r) !! key
       = match supplied key updates with
         | Some v => Some (redis_value key v)
         | None => state w !! key
         end) /\
  (forall dest w key,
     key <> "destination" -> key <> "isMoving" -> key <> "fuel" ->
     state (fst (setDestination dest w)) !! key = state w !! key) /\
  (forall h t w w',
     reachable speed rate h t w -> step speed rate w w' ->
     exists t1 t2,
       state w !! "timestamp" = Some (Z_toString t1) /\
       state w' !! "timestamp" = Some (Z_toString t2) /\
       (t1 <= t2 <= now w')%Z) /\
  (forall h t w updates,
     reachable speed rate h t w ->
     exists t1,
       state w !! "timestamp" = Some (Z_toString t1) /\
       state (fst (updateState updates w)) !! "timestamp"
       = Some (Z_toString (now w)) /\
       (t1 <= now w)%Z).
Proof.
  split; [|split; [|split; [|split; [|split]]]].
  - intros fields w key. wsimpl. rewrite lookup_union.
    by destruct (fields !! key), (state w !! key).
  - intros field v w key. wsimpl. case_decide as Hk.
    + subst key. apply lookup_insert_eq.
    + by apply lookup_insert_ne.
  - intros updates w r. split; [reflexivity|]. split.
    + unfold r. rewrite updateState_lookup. keys.
    + intros key Hkey. unfold r. rewrite updateState_lookup. keys.
  - intros dest w key H1 H2 H3. rewrite setDestination_lookup. keys.
  - intros h t w w' Hreach Hstep.
    assert (Hw : consistent w) by (by eapply consistent_reachable).
    destruct (timestamp_persisted w Hw) as (t1 & Ht1 & Hle).
    destruct (step_timestamp w w' Hstep) as [[Hsame|Hnow] Hclock].
    + exists t1, t1. rewrite Hsame. split; [exact Ht1|]. split; [exact Ht1|lia].
    + exists t1, (now w). split; [exact Ht1|]. split; [exact Hnow|lia].
  - intros h t w updates Hreach.
    assert (Hw : consistent w) by (by eapply consistent_reachable).
    destruct (timestamp_persisted w Hw) as (t1 & Ht1 & Hle).
    exists t1. split; [exact Ht1|]. split; [|exact Hle].
    rewrite updateState_lookup. keys.
Qed.

End StopAndWrites.

Lemma stop_clears_and_is_idempotent_witness :
  let w := fst (setDestination (Fin 100, Fin 0, Fin 0)
                  (initialize DEFAULT_SPEED (created ∅ 0))) in
  let w1 := on_command DEFAULT_SPEED stop w in
  destination w1 = None /\ isRunning w1 = false /\
  state w1 !! "isMoving" = Some str_false /\
  on_command DEFAULT_SPEED stop w1 = w1.
Proof.
  intros w w1.
  destruct (stop_clears_and_is_idempotent DEFAULT_SPEED DEFAULT_RATE ∅ 0 w)
    as (Hd & Hr & _ & Hm & _ & _ & Hagain & _).
  - eapply reachable_step; [apply reachable_initialize|].
    apply step_setDestination.
  - exact (conj Hd (conj Hr (conj Hm Hagain))).
Defined.

Lemma initialize_now (speed : R) (h : gmap string text) (t : Z) :
  now (initialize speed (created h t)) = t.
Proof.
  unfold initialize. rewrite updateRedisPosition_now.
  destruct (getState (created h t)) as [st|]; [|reflexivity].
  destruct (json_truthy (State.position st)),
           (json_truthy (State.destination st));
    rewrite ?startInterpolation_now; reflexivity.
Qed.

Lemma initialize_timestamp (speed : R) (h : gmap string text) (t : Z) :
  state (initialize speed (created h t)) !! "timestamp" = Some (Z_toString t)
  /\ now (initialize speed (created h t)) = t.
Proof.
  split; [|apply initialize_now].
  rewrite <- (initialize_now speed h t) at 2.
  unfold initialize at 1. rewrite updateRedisPosition_lookup. keys.
  reflexivity.
Qed.

(** The timestamp of C8 as the claim states it: the write of
    [setDestination], made one second after the record was created,
    changes the destination and leaves the timestamp at the time of
    creation. *)
Lemma writes_merge_and_timestamp_grows_counterexample :
  let w0 := initialize DEFAULT_SPEED (created ∅ 0) in
  let w1 := elapse 1000 w0 in
  let w2 := fst (setDestination (Fin 100, Fin 0, Fin 0) w1) in
  now w1 = 1000%Z /\
  state w1 !! "timestamp" = Some (Z_toString 0) /\
  state w2 !! "destination" <> state w1 !! "destination" /\
  state w2 !! "timestamp" = Some (Z_toString 0) /\
  Z_toString 0 <> Z_toString 1000.
Proof.
  intros w0 w1 w2.
  destruct (initialize_timestamp DEFAULT_SPEED ∅ 0) as [Hts Hnow].
  fold w0 in Hts, Hnow.
  assert (Hts1 : state w1 !! "timestamp" = Some (Z_toString 0)).
  { unfold w1. by rewrite elapse_state. }
  split; [unfold w1; rewrite elapse_now, Hnow; reflexivity|].
  split; [exact Hts1|]. split; [|split].
  - unfold w2. rewrite setDestination_lookup. keys.
    unfold w1. rewrite elapse_state. unfold w0, initialize.
    rewrite updateRedisPosition_lookup. keys.
    rewrite getState_empty by reflexivity. world. discriminate.
  - unfold w2. rewrite setDestination_lookup. keys.
  - intros H. apply Z_toString_inj in H. discriminate.
Qed.

(** ** Arrival *)

Section Arrival.

Variables speed rate : R.

(** The world an arrival tick leaves, field by field. *)
Lemma arrival_world (w : World) (dest : Vector3) (f d : R) :
  isRunning w = true -> destination w = Some dest ->
  isNotifyingArrival w = false ->
  getCurrentFuel w = Fin f -> 0 < f -> 0 < f - fuelConsumed speed rate ->
  calculateDistance (currentPosition w) dest = Fin d ->
  d <= ARRIVAL_THRESHOLD ->
  let w' := updatePosition speed rate w in
  currentPosition w' = dest /\
  isRunning w' = false /\
  intervalId w' = false /\
  destination w' = None /\
  isNotifyingArrival w' = true /\
  events w'
  = events w ++
    [ fuel_update (Fin (f - fuelConsumed speed rate));
      arrival (vector_numbers dest) (Fin (f - fuelConsumed speed rate))
              (now w) ] /\
  now w' = now w /\
  timeouts w' = timeouts w ++ [(now w + 1000)%Z] /\
  getCurrentFuel w' = Fin (f - fuelConsumed speed rate) /\
  state w' !! "destination" = Some (TJson JNull) /\
  state w' !! "isMoving" = Some str_false /\
  state w' !! "position"
  = Some (JSON_stringify (numbers (vector_numbers dest))).
Proof.
  intros Hr Hd Hn Hf Hpos Hgt Hdist Hle w'. unfold w'.
  rewrite (updatePosition_arrival speed rate w dest f d) by done.
  match goal with |- context [notifyArrival dest ?v] => set (u := v) end.
  assert (Hnu : isNotifyingArrival u = false) by (unfold u; by world).
  assert (Hfu : getCurrentFuel u = Fin (f - fuelConsumed speed rate)).
  { unfold u. by world. }
  assert (Hnow : now u = now w) by (unfold u; by world).
  split; [unfold u; by world|].
  split; [unfold u; by world|].
  split; [unfold u; world; by rewrite Hr|].
  split; [unfold u; by world|].
  split; [by world|].
  split.
  { world. rewrite Hnu, Hfu, Hnow. unfold u. world.
    by rewrite <- app_assoc. }
  split; [by world|].
  split; [world; rewrite Hnu, Hnow; unfold u; by world|].
  split; [by world|].
  rewrite !notifyArrival_lookup by done. repeat split; keys.
Qed.

(** Only a tick that stops the loop publishes an [arrival] event. *)
Lemma step_arrivals (w w' : World) :
  step speed rate w w' ->
  isRunning w = false \/ isRunning w' = true ->
  arrivals (events w') = arrivals (events w).
Proof.
  intros [u _|u dest|u command|u dt _] Hrun.
  - destruct (updatePosition_cases speed rate u)
      as [-> | (dest & Hd & Hr &
               [Hu | [(p & e & Hu) | [(a & Hu) | (a & p & Hu)]]])];
      [reflexivity|..]; rewrite Hu in *.
    + destruct Hrun as [Hrun|Hrun]; [congruence|].
      revert Hrun. by world.
    + destruct Hrun as [Hrun|Hrun]; [congruence|].
      revert Hrun. by world.
    + destruct Hrun as [Hrun|Hrun]; [congruence|].
      revert Hrun. by world.
    + world. rewrite arrivals_app. cbn [arrivals]. lia.
  - rewrite setDestination_world. destruct dest as [[d0 d1] d2]. by world.
  - destruct command as [dest| |]; cbn [on_command]; [|by world|reflexivity].
    wsimpl. destruct (isRunning u); cbn [negb]; by world.
  - by destruct (elapse_object dt u) as (_ & _ & _ & _ & -> & _).
Qed.

Lemma elapse_quiet (dt : Z) (w : World) :
  (forall t0, In t0 (timeouts w) -> (now w + dt < t0)%Z) ->
  isNotifyingArrival (elapse dt w) = isNotifyingArrival w /\
  timeouts (elapse dt w) = timeouts w.
Proof.
  intros Hlate. unfold elapse. wsimpl.
  assert (Hdue : List.filter (fun d => (d <=? now w + dt)%Z) (timeouts w) = []).
  { induction (timeouts w) as [|t0 l IH]; [reflexivity|]. cbn [List.filter].
    destruct (Z.leb_spec t0 (now w + dt)) as [Hle|_].
    - specialize (Hlate t0 (or_introl eq_refl)). lia.
    - apply IH. intros t1 Ht1. apply Hlate. by right. }
  rewrite Hdue. wsimpl. split; [reflexivity|].
  induction (timeouts w) as [|t0 l IH]; [reflexivity|]. cbn [List.filter].
  destruct (Z.leb_spec t0 (now w + dt)) as [Hle|_]; cbn [negb].
  - specialize (Hlate t0 (or_introl eq_refl)). lia.
  - f_equal. apply IH.
    + intros t1 Ht1. apply Hlate. by right.
    + cbn [List.filter] in Hdue.
      destruct (t0 <=? now w + dt)%Z; [discriminate|exact Hdue].
Qed.

(** C3 (as amended).  In a state the process reaches, on a tick that
    gets past the two fuel tests (fuel [f > 0] and more than the draw of
    the tick) with the destination within the arrival threshold: the
    position becomes the destination, the loop stops, the destination is
    cleared (in the object and in the persisted record) and the tick
    publishes one [arrival] event.  No step publishes an [arrival] event
    unless it stops a running loop.  While [isNotifyingArrival] is set a
    further [notifyArrival] does nothing, later ticks do nothing, and the
    flag stays set for the next 1000 ms provided no timeout left by an
    earlier arrival falls due in between. *)
Theorem arrival_once (h : gmap string text) (t : Z) (w : World)
    (dest : Vector3) (f d : R) :
  reachable speed rate h t w ->
  isRunning w = true -> destination w = Some dest ->
  getCurrentFuel w = Fin f -> 0 < f -> 0 < f - fuelConsumed speed rate ->
  calculateDistance (currentPosition w) dest = Fin d ->
  d <= ARRIVAL_THRESHOLD ->
  let w' := updatePosition speed rate w in
  currentPosition w' = dest /\
  isRunning w' = false /\ intervalId w' = false /\
  destination w' = None /\
  (exists st, getState w' = Some st /\ State.destination st = JNull /\
     State.isMoving st = false) /\
  events w'
  = events w ++
    [ fuel_update (Fin (f - fuelConsumed speed rate));
      arrival (vector_numbers dest) (Fin (f - fuelConsumed speed rate))
              (now w) ] /\
  arrivals (events w') = S (arrivals (events w)) /\
  state w' !! "position"
    = Some (JSON_stringify (numbers (vector_numbers dest))) /\
  (forall u u', step speed rate u u' ->
     isRunning u = false \/ isRunning u' = true ->
     arrivals (events u') = arrivals (events u)) /\
  (forall p, notifyArrival p w' = w') /\
  (forall n, ticks speed rate n w' = w') /\
  (forall dt p,
     (0 <= dt < 1000)%Z ->
     (forall t0, In t0 (timeouts w) -> (now w + dt < t0)%Z) ->
     notifyArrival p (elapse dt w') = elapse dt w').
Proof.
  intros Hreach Hr Hd Hf Hpos Hgt Hdist Hle w'.
  assert (Hw : consistent w) by (by eapply consistent_reachable).
  assert (Hn : isNotifyingArrival w = false) by (by apply Hw).
  destruct (arrival_world w dest f d Hr Hd Hn Hf Hpos Hgt Hdist Hle)
    as (Hp & Hr' & Hi' & Hd' & Hn' & He' & Hnow' & Hto' & Hf' & Hsd & Hsm
        & Hsp).
  fold w' in Hp, Hr', Hi', Hd', Hn', He', Hnow', Hto', Hf', Hsd, Hsm, Hsp.
  split; [exact Hp|]. split; [exact Hr'|]. split; [exact Hi'|].
  split; [exact Hd'|]. split.
  { eexists. split.
    - apply getState_nonempty. intros Hempty.
      by rewrite Hempty, lookup_empty in Hsm.
    - cbn [State.destination State.isMoving]. by rewrite Hsd, Hsm. }
  split; [exact He'|].
  split; [rewrite He', arrivals_app; cbn [arrivals]; lia|].
  split; [exact Hsp|].
  split; [apply step_arrivals|].
  split; [intros p; by apply notifyArrival_notifying|].
  split; [intros n; by apply ticks_stopped|].
  intros dt p Hdt Hlate. apply notifyArrival_notifying.
  destruct (elapse_quiet dt w') as [-> _]; [|exact Hn'].
  intros t0. rewrite Hto', Hnow', in_app_iff. intros [Hin|[<-|[]]].
  - by apply Hlate.
  - lia.
Qed.

End Arrival.

(** ** Two short runs *)

Lemma norm_axis (a : R) : 0 <= a -> norm (a - 0) (0 - 0) (0 - 0) = a.
Proof.
  intros Ha. unfold norm.
  replace ((a - 0) * (a - 0) + (0 - 0) * (0 - 0) + (0 - 0) * (0 - 0))
    with (a * a) by ring.
  by apply sqrt_square.
Qed.

Lemma distance_axis (a b : R) :
  a <= b -> calculateDistance (vec a 0 0) (vec b 0 0) = Fin (b - a).
Proof.
  intros Hab. rewrite calculateDistance_vec. f_equal.
  replace (b - a) with (b - a - 0) at 1 by ring.
  apply norm_axis. lra.
Qed.

(** The object after [initialize] found no record. *)
Lemma initialize_fresh (speed : R) (t : Z) :
  let w := initialize speed (created ∅ t) in
  isRunning w = false /\ intervalId w = false /\
  currentPosition w = vec 0 0 0 /\ destination w = None /\
  isNotifyingArrival w = false /\ events w = [] /\ now w = t /\
  timeouts w = [] /\ getCurrentFuel w = Fin 100.
Proof.
  intros w.
  assert (Hf : getCurrentFuel w = Fin 100).
  { unfold w. by destruct (initialize_fuel speed ∅ t) as [-> _]. }
  unfold w, initialize in *. rewrite getState_empty in * by reflexivity.
  by repeat split.
Qed.

(** The object after [setDestination]. *)
Lemma setDestination_object (d0 d1 d2 : num) (w : World) :
  let w' := fst (setDestination (d0, d1, d2) w) in
  isRunning w' = true /\
  currentPosition w' = currentPosition w /\
  destination w' = Some (mkVector3 d0 d1 d2) /\
  isNotifyingArrival w'
  = (if isRunning w then isNotifyingArrival w else false) /\
  events w' = events w /\ now w' = now w /\ timeouts w' = timeouts w /\
  getCurrentFuel w' = getCurrentFuel w.
Proof.
  intros w'. unfold w'. rewrite setDestination_fuel, setDestination_world.
  world. by repeat split.
Qed.

Lemma default_draw_small : 0 < 100 - fuelConsumed DEFAULT_SPEED DEFAULT_RATE.
Proof. rewrite default_draw. lra. Qed.

Lemma arrival_once_witness :
  let w := fst (setDestination (Fin 5, Fin 0, Fin 0)
                  (initialize DEFAULT_SPEED (created ∅ 0))) in
  let w' := updatePosition DEFAULT_SPEED DEFAULT_RATE w in
  currentPosition w' = vec 5 0 0 /\ isRunning w' = false /\
  destination w' = None /\ arrivals (events w') = S (arrivals (events w)).
Proof.
  intros w w'.
  destruct (initialize_fresh DEFAULT_SPEED 0)
    as (Hr0 & _ & Hp0 & _ & _ & _ & _ & _ & Hf0).
  destruct (setDestination_object (Fin 5) (Fin 0) (Fin 0)
              (initialize DEFAULT_SPEED (created ∅ 0)))
    as (Hr & Hp & Hd & _ & _ & _ & _ & Hf).
  fold w in Hr, Hp, Hd, Hf.
  destruct (arrival_once DEFAULT_SPEED DEFAULT_RATE ∅ 0 w (vec 5 0 0) 100 5)
    as (Hp' & Hr' & _ & Hd' & _ & _ & Ha' & _).
  - eapply reachable_step; [apply reachable_initialize|].
    apply step_setDestination.
  - exact Hr.
  - exact Hd.
  - by rewrite Hf.
  - lra.
  - apply default_draw_small.
  - rewrite Hp, Hp0. rewrite distance_axis by lra. f_equal. lra.
  - unfold ARRIVAL_THRESHOLD. lra.
  - exact (conj Hp' (conj Hr' (conj Hd' Ha'))).
Defined.

Lemma elapse_fires (dt : Z) (w : World) (t0 : Z) :
  In t0 (timeouts w) -> (t0 <= now w + dt)%Z ->
  isNotifyingArrival (elapse dt w) = false.
Proof.
  intros Hin Hdue. unfold elapse. wsimpl.
  destruct (List.filter (fun d => (d <=? now w + dt)%Z) (timeouts w))
    as [|t1 l] eqn:Hfilter; [|reflexivity].
  assert (Ht0 : In t0 []).
  { rewrite <- Hfilter. apply filter_In. split; [exact Hin|].
    by apply Z.leb_le. }
  destruct Ht0.
Qed.

(** The object after [initialize] found a record that holds a fuel
    only. *)
Lemma initialize_fuel_only (speed : R) (f : R) :
  let h : gmap string text := <["fuel" := toString (Fin f)]> ∅ in
  let w := initialize speed (created h 0) in
  isRunning w = false /\ currentPosition w = vec 0 0 0 /\
  isNotifyingArrival w = false /\ events w = [] /\ getCurrentFuel w = Fin f.
Proof.
  intros h w.
  assert (Hf : getCurrentFuel w = Fin f).
  { unfold w. destruct (initialize_fuel speed h 0) as [_ ->].
    - apply getCurrentFuel_written. apply lookup_insert_eq.
    - apply insert_non_empty. }
  unfold w, initialize in *.
  rewrite getState_nonempty in * by apply insert_non_empty.
  cbn [State.position State.destination state created] in *.
  assert (Hp : h !! "position" = None).
  { unfold h. rewrite lookup_insert_ne by done. apply lookup_empty. }
  assert (Hd : h !! "destination" = None).
  { unfold h. rewrite lookup_insert_ne by done. apply lookup_empty. }
  rewrite Hp, Hd in *. by repeat split.
Qed.

(** The two ways in which C3 fails as the claim states it.  First, a
    tick that finds the ship within the threshold does not snap it to the
    destination when the fuel runs out on that tick: the transit ends by
    depletion, short of the destination and with no [arrival] event.
    Second, the timeout of an earlier arrival resets
    [isNotifyingArrival] inside the 1000 ms that follow a later arrival:
    a ship that arrives at time 0 and again at time 100 has the flag reset
    at time 1000, and a [notifyArrival] invoked at time 1050 publishes a
    second [arrival] event for the second transit. *)
Lemma arrival_once_counterexample :
  (let h : gmap string text := <["fuel" := toString (Fin (1 / 1000))]> ∅ in
   let w := fst (setDestination (Fin 5, Fin 0, Fin 0)
                   (initialize DEFAULT_SPEED (created h 0))) in
   let w' := updatePosition DEFAULT_SPEED DEFAULT_RATE w in
   reachable DEFAULT_SPEED DEFAULT_RATE h 0 w /\
   isRunning w = true /\ destination w = Some (vec 5 0 0) /\
   calculateDistance (currentPosition w) (vec 5 0 0) = Fin 5 /\
   5 <= ARRIVAL_THRESHOLD /\
   currentPosition w' <> vec 5 0 0 /\
   arrivals (events w') = 0%nat /\
   destination w' = None /\ isRunning w' = false) /\
  (let w1 := fst (setDestination (Fin 5, Fin 0, Fin 0)
                    (initialize DEFAULT_SPEED (created ∅ 0))) in
   let w2 := updatePosition DEFAULT_SPEED DEFAULT_RATE w1 in
   let w3 := elapse 100 w2 in
   let w4 := fst (setDestination (Fin 6, Fin 0, Fin 0) w3) in
   let w5 := updatePosition DEFAULT_SPEED DEFAULT_RATE w4 in
   let w6 := elapse 950 w5 in
   reachable DEFAULT_SPEED DEFAULT_RATE ∅ 0 w6 /\
   currentPosition w5 = vec 6 0 0 /\
   now w5 = 100%Z /\ now w6 = 1050%Z /\
   arrivals (events w4) = 1%nat /\
   arrivals (events w5) = 2%nat /\
   arrivals (events (notifyArrival (vec 6 0 0) w6)) = 3%nat).
Proof.
  split.
  - intros h w w'.
    destruct (initialize_fuel_only DEFAULT_SPEED (1 / 1000))
      as (Hr0 & Hp0 & Hn0 & He0 & Hf0).
    fold h in Hr0, Hp0, Hn0, He0, Hf0.
    destruct (setDestination_object (Fin 5) (Fin 0) (Fin 0)
                (initialize DEFAULT_SPEED (created h 0)))
      as (Hr & Hp & Hd & _ & He & _ & _ & Hf).
    fold w in Hr, Hp, Hd, He, Hf.
    rewrite Hp0 in Hp. rewrite He0 in He. rewrite Hf0 in Hf.
    assert (Hdraw : 1 / 1000 - fuelConsumed DEFAULT_SPEED DEFAULT_RATE <= 0).
    { rewrite default_draw. lra. }
    assert (Hw' := updatePosition_depleted DEFAULT_SPEED DEFAULT_RATE w
                     (vec 5 0 0) (1 / 1000) Hr Hd Hf ltac:(lra) Hdraw).
    cbv zeta in Hw'. fold w' in Hw'.
    split; [eapply reachable_step;
            [apply reachable_initialize|apply step_setDestination]|].
    split; [exact Hr|]. split; [exact Hd|].
    split; [rewrite Hp, distance_axis by lra; f_equal; lra|].
    split; [unfold ARRIVAL_THRESHOLD; lra|].
    split; [|split; [|split]].
    + rewrite Hw'. world. unfold direction. rewrite Hp, towards_vec.
      rewrite normalizeVector_vec by (rewrite norm_axis; lra).
      rewrite norm_axis by lra. rewrite advance_vec. unfold vec.
      intros [= Hx _ _]. unfold DEFAULT_RATE in Hx. lra.
    + rewrite Hw'. world. by rewrite He.
    + rewrite Hw'. by world.
    + rewrite Hw'. by world.
  - intros w1 w2 w3 w4 w5 w6.
    set (c := fuelConsumed DEFAULT_SPEED DEFAULT_RATE).
    assert (Hc : c = 2433 / 200000) by apply default_draw.
    destruct (initialize_fresh DEFAULT_SPEED 0)
      as (Hr0 & _ & Hp0 & _ & Hn0 & He0 & Hnow0 & Hto0 & Hf0).
    set (w0 := initialize DEFAULT_SPEED (created ∅ 0)) in *.
    assert (Hreach1 : reachable DEFAULT_SPEED DEFAULT_RATE ∅ 0 w1).
    { eapply reachable_step; [apply reachable_initialize|].
      apply step_setDestination. }
    destruct (setDestination_object (Fin 5) (Fin 0) (Fin 0) w0)
      as (Hr1 & Hp1 & Hd1 & Hn1 & He1 & Hnow1 & Hto1 & Hf1).
    fold w1 in Hr1, Hp1, Hd1, Hn1, He1, Hnow1, Hto1, Hf1.
    rewrite Hr0 in Hn1. rewrite Hp0 in Hp1. rewrite He0 in He1.
    rewrite Hnow0 in Hnow1. rewrite Hto0 in Hto1. rewrite Hf0 in Hf1.
    destruct (arrival_world DEFAULT_SPEED DEFAULT_RATE w1 (vec 5 0 0) 100 5)
      as (Hp2 & Hr2 & _ & _ & Hn2 & He2 & Hnow2 & Hto2 & Hf2 & _);
      [done|done|done|done|lra|fold c; lra| |unfold ARRIVAL_THRESHOLD; lra|].
    { rewrite Hp1, distance_axis by lra. f_equal. lra. }
    fold w2 c in Hp2, Hr2, Hn2, He2, Hnow2, Hto2, Hf2.
    rewrite He1 in He2. rewrite Hnow1 in He2, Hnow2, Hto2.
    rewrite Hto1 in Hto2. cbn [app Z.add] in He2, Hto2.
    assert (Hreach2 : reachable DEFAULT_SPEED DEFAULT_RATE ∅ 0 w2).
    { eapply reachable_step; [exact Hreach1|]. apply step_tick.
      rewrite (interval_running w1); [exact Hr1|].
      by eapply consistent_reachable. }
    assert (Hreach3 : reachable DEFAULT_SPEED DEFAULT_RATE ∅ 0 w3).
    { eapply reachable_step; [exact Hreach2|]. by apply step_elapse. }
    destruct (elapse_object 100 w2) as (Hr3 & _ & Hp3 & _ & He3 & _).
    fold w3 in Hr3, Hp3, He3.
    assert (Hnow3 : now w3 = 100%Z).
    { unfold w3. rewrite elapse_now, Hnow2. reflexivity. }
    destruct (elapse_quiet 100 w2) as [Hn3 Hto3].
    { rewrite Hto2, Hnow2. intros t0 [<-|[]]. lia. }
    fold w3 in Hn3, Hto3.
    assert (Hf3 : getCurrentFuel w3 = Fin (100 - c)).
    { rewrite <- Hf2. apply getCurrentFuel_state. unfold w3.
      by rewrite elapse_state. }
    destruct (setDestination_object (Fin 6) (Fin 0) (Fin 0) w3)
      as (Hr4 & Hp4 & Hd4 & Hn4 & He4 & Hnow4 & Hto4 & Hf4).
    fold w4 in Hr4, Hp4, Hd4, Hn4, He4, Hnow4, Hto4, Hf4.
    rewrite Hr3, Hr2 in Hn4. rewrite Hp3, Hp2 in Hp4.
    rewrite He3, He2 in He4. rewrite Hnow3 in Hnow4.
    rewrite Hto3, Hto2 in Hto4. rewrite Hf3 in Hf4.
    assert (Hreach4 : reachable DEFAULT_SPEED DEFAULT_RATE ∅ 0 w4).
    { eapply reachable_step; [exact Hreach3|]. apply step_setDestination. }
    destruct (arrival_world DEFAULT_SPEED DEFAULT_RATE w4 (vec 6 0 0)
                (100 - c) 1)
      as (Hp5 & Hr5 & _ & _ & Hn5 & He5 & Hnow5 & Hto5 & Hf5 & _);
      [done|done|done|done|lra|fold c; lra| |unfold ARRIVAL_THRESHOLD; lra|].
    { rewrite Hp4, distance_axis by lra. f_equal. lra. }
    fold w5 c in Hp5, Hr5, Hn5, He5, Hnow5, Hto5, Hf5.
    rewrite He4 in He5. rewrite Hnow4 in He5, Hnow5, Hto5.
    rewrite Hto4 in Hto5. cbn [app Z.add] in He5, Hto5.
    assert (Hreach5 : reachable DEFAULT_SPEED DEFAULT_RATE ∅ 0 w5).
    { eapply reachable_step; [exact Hreach4|]. apply step_tick.
      rewrite (interval_running w4); [exact Hr4|].
      by eapply consistent_reachable. }
    assert (Hn6 : isNotifyingArrival w6 = false).
    { apply (elapse_fires 950 w5 1000).
      - rewrite Hto5. by left.
      - rewrite Hnow5. lia. }
    destruct (elapse_object 950 w5) as (_ & _ & _ & _ & He6 & _).
    fold w6 in He6.
    split; [eapply reachable_step; [exact Hreach5|by apply step_elapse]|].
    split; [exact Hp5|]. split; [exact Hnow5|].
    split; [unfold w6; rewrite elapse_now, Hnow5; reflexivity|].
    split; [by rewrite He4|]. split; [by rewrite He5|].
    rewrite notifyArrival_events, Hn6, He6, He5. reflexivity.
Qed.

(** ** Steady movement *)

Section Steady.

Variables speed rate : R.





End Steady.





(** ** What the hash holds of the position and of the velocity *)

Lemma getCurrentPosition_written (w : World) (v : Vector3) :
  state w !! "position" = Some (JSON_stringify (numbers (vector_numbers v))) ->
  getCurrentPosition w = Some (read_back v).
Proof.
  intros H. unfold getCurrentPosition. rewrite H.
  destruct v as [[a|] [b|] [c|]]; reflexivity.
Qed.

Lemma read_vector_written (v : Vector3) :
  read_vector (Some (JSON_stringify (numbers (vector_numbers v))))
  = to_json (numbers (vector_numbers (read_back v))).
Proof. destruct v as [[a|] [b|] [c|]]; reflexivity. Qed.

(** X4.  [getCurrentPosition] never throws: it answers [null] when the
    position field is missing, empty, rejected by [JSON.parse] or the
    text [null]; of an array of numbers it returns the first three,
    a missing one being 0; and right after [updateRedisPosition] it
    returns the position of the object, a [NaN] coordinate read as 0. *)
Theorem getCurrentPosition_reads (speed : R) (w : World) :
  (missing_or_empty (state w !! "position") \/
   (exists pf, state w !! "position" = Some (TOther pf)) \/
   state w !! "position" = Some (TJson JNull) ->
   getCurrentPosition w = None) /\
  (forall l, state w !! "position" = Some (TJson (JArr (List.map JNum l))) ->
     getCurrentPosition w
     = Some (vec (nth 0 l 0) (nth 1 l 0) (nth 2 l 0))) /\
  getCurrentPosition (updateRedisPosition speed w)
  = Some (read_back (currentPosition w)).
Proof.
  split; [|split].
  - unfold getCurrentPosition.
    by intros [[-> | ->] | [[pf ->] | ->]].
  - intros l H. unfold getCurrentPosition. rewrite H.
    by destruct l as [|a [|b [|c l]]].
  - apply getCurrentPosition_written.
    rewrite updateRedisPosition_lookup. keys.
Qed.

Section Mirror.

Variables speed rate : R.

Lemma mirrored_updateRedisPosition (w : World) :
  (isRunning w = false -> destination w = None) ->
  mirrored (updateRedisPosition speed w).
Proof.
  intros Hd. split; world.
  - rewrite updateRedisPosition_lookup. keys; try reflexivity.
  - intros Hr. rewrite updateRedisPosition_lookup. keys.
    unfold calculateVelocity. by rewrite (Hd Hr).
Qed.

Lemma mirrored_stopped (w : World) :
  isRunning w = true ->
  mirrored (stopInterpolation speed (set_destination None w)).
Proof.
  intros Hr. split; world.
  - rewrite stopInterpolation_lookup by done.
    rewrite updateRedisPosition_lookup. keys; try reflexivity.
  - intros _. rewrite stopInterpolation_lookup by done.
    rewrite updateRedisPosition_lookup. keys; try reflexivity.
Qed.

Lemma mirrored_arrived (w : World) (dest : Vector3) :
  isRunning w = true -> isNotifyingArrival w = false ->
  mirrored (notifyArrival dest (hSet1 "destination" TEmpty
    (set_destination None (stopInterpolation speed
       (set_currentPosition dest w))))).
Proof.
  intros Hr Hn.
  set (u := hSet1 "destination" TEmpty
              (set_destination None (stopInterpolation speed
                 (set_currentPosition dest w)))).
  assert (Hnu : isNotifyingArrival u = false) by (unfold u; by world).
  split; world.
  - rewrite notifyArrival_lookup by done. unfold u. world.
    keys; try reflexivity.
  - intros _. rewrite notifyArrival_lookup by done. keys; try reflexivity.
Qed.

Lemma mirrored_updatePosition (w : World) :
  consistent w -> mirrored w -> mirrored (updatePosition speed rate w).
Proof.
  intros Hc Hm.
  destruct (updatePosition_cases speed rate w)
    as [-> | (dest & Hd & Hr &
             [-> | [(p & e & ->) | [(a & ->) | (a & p & ->)]]])].
  - exact Hm.
  - by apply mirrored_stopped.
  - by apply mirrored_stopped.
  - pose proof (running_not_notifying w Hc Hr) as Hn.
    apply (mirrored_arrived (updateFuel a w)); by world.
  - apply mirrored_updateRedisPosition. world. congruence.
Qed.

Lemma mirrored_setDestination (w : World) (dest : num * num * num) :
  mirrored w -> mirrored (fst (setDestination dest w)).
Proof.
  intros [Hp Hv]. split.
  - rewrite setDestination_lookup. keys.
    rewrite setDestination_world. destruct dest as [[d0 d1] d2]. by world.
  - rewrite setDestination_world. destruct dest as [[d0 d1] d2]. world.
    discriminate.
Qed.

Lemma mirrored_on_command (w : World) (command : Command) :
  mirrored w -> mirrored (on_command speed command w).
Proof.
  intros Hm. destruct command as [dest| |]; cbn [on_command].
  - wsimpl. destruct Hm as [Hp Hv].
    destruct (isRunning w) eqn:Hr; cbn [negb]; split; world; try done.
    rewrite Hr. discriminate.
  - destruct (isRunning w) eqn:Hr.
    + by apply mirrored_stopped.
    + rewrite stopInterpolation_stopped by done.
      destruct Hm as [Hp Hv]. split; wsimpl; done.
  - exact Hm.
Qed.

Lemma mirrored_elapse (w : World) (dt : Z) :
  mirrored w -> mirrored (elapse dt w).
Proof.
  intros [Hp Hv].
  destruct (elapse_object dt w) as (E1 & _ & E3 & _).
  split; rewrite ?E1, ?E3, ?elapse_state; auto.
Qed.

Lemma mirrored_initialize (h : gmap string text) (t : Z) :
  mirrored (initialize speed (created h t)).
Proof.
  unfold initialize. apply mirrored_updateRedisPosition.
  destruct (getState (created h t)) as [st|]; [|reflexivity].
  destruct (json_truthy (State.position st)),
           (json_truthy (State.destination st)); world; done.
Qed.

Lemma mirrored_reachable (h : gmap string text) (t : Z) (w : World) :
  reachable speed rate h t w -> mirrored w.
Proof.
  induction 1 as [|w w' Hw IH Hstep].
  - apply mirrored_initialize.
  - pose proof (consistent_reachable speed rate h t w Hw) as Hc.
    destruct Hstep as [u _|u dest|u command|u dt Hdt].
    + by apply mirrored_updatePosition.
    + by apply mirrored_setDestination.
    + by apply mirrored_on_command.
    + by apply mirrored_elapse.
Qed.

Lemma reachable_non_empty (h : gmap string text) (t : Z) (w : World) :
  reachable speed rate h t w -> state w <> ∅.
Proof.
  intros Hw He. destruct (mirrored_reachable h t w Hw) as [Hp _].
  rewrite He, lookup_empty in Hp. discriminate.
Qed.

(** X5.  In every state the process can reach, the position field of the
    hash is the JSON text of the position the object holds: what
    [getCurrentPosition] and [getState] return is that position, a [NaN]
    coordinate being read as 0. *)
Theorem position_is_mirrored (h : gmap string text) (t : Z) (w : World) :
  reachable speed rate h t w ->
  state w !! "position"
  = Some (JSON_stringify (numbers (vector_numbers (currentPosition w)))) /\
  getCurrentPosition w = Some (read_back (currentPosition w)) /\
  State.position <$> getState w
  = Some (to_json (numbers (vector_numbers (read_back (currentPosition w))))).
Proof.
  intros Hw. destruct (mirrored_reachable h t w Hw) as [Hp _].
  split; [exact Hp|]. split; [by apply getCurrentPosition_written|].
  rewrite getState_nonempty by (by apply (reachable_non_empty h t)).
  cbn [fmap option_fmap option_map State.position].
  by rewrite Hp, read_vector_written.
Qed.

(** X6.  In every state the process can reach in which the loop is
    stopped, the object has no destination and [getState] returns a
    state that says so: its velocity is [[0,0,0]], its destination is
    [null] and [isMoving] is false. *)
Theorem stopped_state_is_persisted (h : gmap string text) (t : Z)
    (w : World) :
  reachable speed rate h t w -> isRunning w = false ->
  destination w = None /\ intervalId w = false /\
  exists st, getState w = Some st /\
    State.velocity st = zeros /\ State.destination st = JNull /\
    State.isMoving st = false.
Proof.
  intros Hw Hr.
  destruct (mirrored_reachable h t w Hw) as [_ Hv].
  destruct (consistent_reachable speed rate h t w Hw)
    as [Hi Hd _ Hm Hdest _].
  split; [by apply Hd|]. split; [by rewrite Hi|].
  eexists. split; [by apply getState_nonempty, (reachable_non_empty h t)|].
  cbn [State.velocity State.destination State.isMoving].
  rewrite (Hv Hr), (Hm Hr), (Hdest Hr). by repeat split.
Qed.

End Mirror.

Lemma position_is_mirrored_witness :
  let w := fst (setDestination (Fin 100, Fin 0, Fin 0)
                  (initialize DEFAULT_SPEED (created ∅ 0))) in
  getCurrentPosition w = Some (read_back (currentPosition w)).
Proof.
  intros w.
  apply (position_is_mirrored DEFAULT_SPEED DEFAULT_RATE ∅ 0 w).
  eapply reachable_step; [apply reachable_initialize|].
  apply step_setDestination.
Defined.

Lemma stopped_state_is_persisted_witness :
  let w := initialize DEFAULT_SPEED (created ∅ 0) in
  destination w = None /\
  exists st, getState w = Some st /\
    State.velocity st = zeros /\ State.destination st = JNull /\
    State.isMoving st = false.
Proof.
  intros w.
  destruct (stopped_state_is_persisted DEFAULT_SPEED DEFAULT_RATE ∅ 0 w)
    as (Hd & _ & Hst).
  - apply reachable_initialize.
  - by destruct (initialize_fresh DEFAULT_SPEED 0) as (Hr & _).
  - exact (conj Hd Hst).
Defined.

(** ** The timeouts of the arrival flag *)

Lemma filter_all_due (t : Z) (l : list Z) :
  (forall d, In d l -> (d <= t)%Z) ->
  List.filter (fun d => (d <=? t)%Z) l = l /\
  List.filter (fun d => negb (d <=? t)%Z) l = [].
Proof.
  induction l as [|d l IH]; intros H; [by split|].
  destruct IH as [IH1 IH2]; [intros d' Hd'; apply H; by right|].
  cbn [List.filter]. rewrite IH1, IH2.
  assert (Hd : (d <=? t)%Z = true) by (apply Z.leb_le, H; by left).
  by rewrite Hd.
Qed.

Lemma filter_none_due (t : Z) (l : list Z) :
  List.filter (fun d => (d <=? t)%Z) l = [] ->
  List.filter (fun d => negb (d <=? t)%Z) l = l.
Proof.
  induction l as [|d l IH]; [reflexivity|]. cbn [List.filter].
  destruct (d <=? t)%Z; [discriminate|]. intros H. cbn [negb].
  by rewrite IH.
Qed.

Section Pending.

Variables speed rate : R.

Lemma pending_frame (w w' : World) :
  timeouts w' = timeouts w -> now w' = now w ->
  (isNotifyingArrival w' = true -> isNotifyingArrival w = true) ->
  pending w -> pending w'.
Proof. intros Ht Hn Hf [H1 H2]. split; rewrite Ht, ?Hn; auto. Qed.

Lemma pending_notifyArrival (w : World) (p : Vector3) :
  pending w -> pending (notifyArrival p w).
Proof.
  intros [H1 H2]. destruct (isNotifyingArrival w) eqn:Hn.
  - rewrite notifyArrival_notifying by done. split; [exact H1|].
    intros _. by apply H2.
  - split; world; rewrite Hn.
    + intros d Hd. apply in_app_or in Hd. destruct Hd as [Hd|[<-|[]]].
      * by apply H1.
      * lia.
    + intros _ H. by apply app_eq_nil in H as [_ H].
Qed.

Lemma pending_updatePosition (w : World) :
  pending w -> pending (updatePosition speed rate w).
Proof.
  intros Hp.
  destruct (updatePosition_cases speed rate w)
    as [-> | (dest & Hd & Hr &
             [-> | [(p & e & ->) | [(a & ->) | (a & p & ->)]]])].
  - exact Hp.
  - apply (pending_frame w); by world.
  - apply (pending_frame w); by world.
  - apply pending_notifyArrival. apply (pending_frame w); by world.
  - apply (pending_frame w); by world.
Qed.

Lemma pending_startInterpolation (w : World) (d : option Vector3) :
  pending w -> pending (startInterpolation (set_destination d w)).
Proof.
  apply pending_frame; world; try done. by destruct (isRunning w).
Qed.

Lemma pending_step (w w' : World) :
  step speed rate w w' -> pending w -> pending w'.
Proof.
  intros [u _|u dest|u command|u dt Hdt] Hp.
  - by apply pending_updatePosition.
  - destruct dest as [[d0 d1] d2].
    destruct (setDestination_object d0 d1 d2 u)
      as (_ & _ & _ & Hn & _ & Hnow & Ht & _).
    apply (pending_frame u); try done. rewrite Hn. by destruct (isRunning u).
  - destruct command as [dest| |]; cbn [on_command].
    + wsimpl. destruct (isRunning u); cbn [negb].
      * apply (pending_frame u); by wsimpl.
      * by apply pending_startInterpolation.
    + apply (pending_frame u); by world.
    + exact Hp.
  - destruct Hp as [H1 H2]. unfold elapse. wsimpl.
    destruct (List.filter (fun d => (d <=? now u + dt)%Z) (timeouts u))
      as [|d0 due] eqn:Hdue; wsimpl.
    + rewrite (filter_none_due _ _ Hdue).
      split; wsimpl; [|exact H2]. intros d Hd. specialize (H1 d Hd). lia.
    + split; wsimpl; [|discriminate].
      intros d Hd. apply filter_In in Hd as [Hd _]. specialize (H1 d Hd). lia.
Qed.

Lemma initialize_flag (h : gmap string text) (t : Z) :
  isNotifyingArrival (initialize speed (created h t)) = false /\
  timeouts (initialize speed (created h t)) = [].
Proof.
  unfold initialize. world.
  destruct (getState (created h t)) as [st|]; [|by split].
  destruct (json_truthy (State.position st)),
           (json_truthy (State.destination st)); by world.
Qed.

Lemma pending_reachable (h : gmap string text) (t : Z) (w : World) :
  reachable speed rate h t w -> pending w.
Proof.
  induction 1 as [|w w' _ IH Hstep].
  - destruct (initialize_flag h t) as [Hn Ht].
    split; rewrite ?Hn, ?Ht; [intros d []|discriminate].
  - by apply (pending_step w w').
Qed.

(** X7.  The arrival flag does not stick: in every state the process can
    reach, once 1000 ms or more have passed the flag is reset and no
    timeout is left pending. *)
Theorem arrival_flag_is_released (h : gmap string text) (t : Z) (w : World)
    (dt : Z) :
  reachable speed rate h t w -> (1000 <= dt)%Z ->
  isNotifyingArrival (elapse dt w) = false /\ timeouts (elapse dt w) = [].
Proof.
  intros Hw Hdt. destruct (pending_reachable h t w Hw) as [H1 H2].
  destruct (filter_all_due (now w + dt) (timeouts w)) as [Hdue Hleft].
  { intros d Hd. specialize (H1 d Hd). lia. }
  unfold elapse. wsimpl. rewrite Hdue.
  destruct (timeouts w) as [|d0 l] eqn:Ht; wsimpl; rewrite Ht.
  - split; [|reflexivity].
    destruct (isNotifyingArrival w); [by destruct H2|reflexivity].
  - split; [reflexivity|exact Hleft].
Qed.

End Pending.

Lemma arrival_flag_is_released_witness :
  let w := fst (setDestination (Fin 5, Fin 0, Fin 0)
                  (initialize DEFAULT_SPEED (created ∅ 0))) in
  let w' := updatePosition DEFAULT_SPEED DEFAULT_RATE w in
  isNotifyingArrival w' = true /\
  isNotifyingArrival (elapse 1000 w') = false /\
  timeouts (elapse 1000 w') = [].
Proof.
  intros w w'.
  destruct (initialize_fresh DEFAULT_SPEED 0)
    as (Hr0 & _ & Hp0 & _ & _ & _ & _ & _ & Hf0).
  destruct (setDestination_object (Fin 5) (Fin 0) (Fin 0)
              (initialize DEFAULT_SPEED (created ∅ 0)))
    as (Hr & Hp & Hd & Hn & _ & _ & _ & Hf).
  fold w in Hr, Hp, Hd, Hn, Hf.
  rewrite Hp0 in Hp. rewrite Hf0 in Hf. rewrite Hr0 in Hn.
  pose proof (consistent_setDestination _ (Fin 5, Fin 0, Fin 0)
                (consistent_initialize DEFAULT_SPEED ∅ 0)) as Hc.
  fold w in Hc.
  assert (Hw' : reachable DEFAULT_SPEED DEFAULT_RATE ∅ 0 w').
  { eapply reachable_step;
      [eapply reachable_step; [apply reachable_initialize|]|].
    - apply step_setDestination.
    - apply step_tick. fold w. by rewrite (interval_running _ Hc). }
  assert (Hdist : calculateDistance (currentPosition w) (vec 5 0 0)
                  = Fin (5 - 0)).
  { rewrite Hp. apply distance_axis. lra. }
  assert (Hle : 5 - 0 <= ARRIVAL_THRESHOLD).
  { unfold ARRIVAL_THRESHOLD. lra. }
  assert (Hpos : 0 < 100) by lra.
  destruct (arrival_world DEFAULT_SPEED DEFAULT_RATE w (vec 5 0 0) 100
              (5 - 0) Hr Hd Hn Hf Hpos default_draw_small Hdist Hle)
    as (_ & _ & _ & _ & Hflag & _).
  assert (Hdt : (1000 <= 1000)%Z) by lia.
  exact (conj Hflag
    (arrival_flag_is_released DEFAULT_SPEED DEFAULT_RATE ∅ 0 w' 1000
       Hw' Hdt)).
Defined.

(** ** What is published, and by what *)

Section Messages.

Variables speed rate : R.

(** X8.  A tick publishes no command, and on [sputnik:events] it
    publishes nothing, or one [fuel_update], or a [fuel_update] followed
    by the [arrival] or by the [fuel_depleted] event that ends the
    transit.  The fuel it leaves in the hash is the fuel of that
    [fuel_update], which an [arrival] event repeats. *)
Theorem tick_publishes (w : World) :
  let w' := updatePosition speed rate w in
  commands w' = commands w /\
  (events w' = events w \/
   (exists a,
      events w' = events w ++ [fuel_update a] /\ getCurrentFuel w' = a) \/
   (exists a dest,
      events w'
      = events w ++ [fuel_update a; arrival (vector_numbers dest) a (now w)] /\
      destination w = Some dest /\ currentPosition w' = dest /\
      getCurrentFuel w' = a /\ isRunning w' = false) \/
   (exists p,
      events w'
      = events w ++
        [fuel_update (Fin 0); fuel_depleted (vector_numbers p) (now w)] /\
      currentPosition w' = p /\ getCurrentFuel w' = Fin 0 /\
      isRunning w' = false)).
Proof.
  intros w'. unfold w', updatePosition.
  destruct (destination w) as [dest|] eqn:Hd; [|by split; [|left]].
  destruct (isRunning w) eqn:Hr; cbn [negb]; [|by split; [|left]].
  destruct (nle (getCurrentFuel w) (Fin 0)).
  { split; [by world|left; by world]. }
  destruct (nle _ (Fin 0)).
  { split; [by world|]. right; right; right. eexists.
    world. rewrite <- app_assoc. by repeat split. }
  destruct (nle _ (Fin ARRIVAL_THRESHOLD)); (split; [by world|]).
  - destruct (isNotifyingArrival w) eqn:Hn.
    + right; left. eexists. rewrite notifyArrival_notifying by (by world).
      by world.
    + right; right; left. eexists _, dest. world. rewrite Hn.
      world. rewrite <- app_assoc. by repeat split.
  - right; left. eexists. by world.
Qed.

(** X9.  The listener of [sputnik:commands] publishes nothing, moves
    nothing and leaves the fuel alone, whatever the command; it writes
    to the hash only when a [stop] command stops a running loop. *)
Theorem on_command_is_silent (command : Command) (w : World) :
  let w' := on_command speed command w in
  events w' = events w /\ commands w' = commands w /\
  currentPosition w' = currentPosition w /\
  getCurrentFuel w' = getCurrentFuel w /\
  (state w' = state w \/ (command = stop /\ isRunning w = true)).
Proof.
  intros w'. unfold w'. destruct command as [dest| |]; cbn [on_command].
  - wsimpl. destruct (isRunning w); cbn [negb]; world;
      repeat split; by left.
  - world. repeat split. destruct (isRunning w) eqn:Hr; [by right|left].
    by rewrite stopInterpolation_stopped.
  - repeat split. by left.
Qed.

(** X10.  A [move_to] command that finds the loop stopped starts it
    without writing to the hash: until the next tick [getState] still
    reports the ship as not moving and without destination, whereas
    after [setDestination] it reports the transit. *)
Theorem command_start_is_not_persisted (h : gmap string text) (t : Z)
    (w : World) (d0 d1 d2 : R) :
  reachable speed rate h t w -> isRunning w = false ->
  let by_command := on_command speed (move_to [Fin d0; Fin d1; Fin d2]) w in
  let by_call := fst (setDestination (Fin d0, Fin d1, Fin d2) w) in
  isRunning by_command = true /\ isRunning by_call = true /\
  destination by_command = Some (vec d0 d1 d2) /\
  destination by_call = Some (vec d0 d1 d2) /\
  (exists st, getState by_command = Some st /\
     State.isMoving st = false /\ State.destination st = JNull) /\
  (exists st, getState by_call = Some st /\
     State.isMoving st = true /\ State.destination st = coordinates d0 d1 d2).
Proof.
  intros Hw Hr by_command by_call.
  destruct (consistent_reachable speed rate h t w Hw)
    as [_ _ _ Hm Hdest _].
  pose proof (reachable_non_empty speed rate h t w Hw) as Hne.
  assert (Hs : state by_command = state w).
  { unfold by_command. cbn [on_command]. wsimpl. rewrite Hr. cbn [negb].
    by world. }
  assert (Hne' : state by_call <> ∅).
  { intros He. apply (f_equal (fun m => m !! "isMoving")) in He.
    unfold by_call in He. rewrite setDestination_lookup in He.
    by rewrite lookup_empty in He. }
  split; [|split; [|split; [|split; [|split]]]].
  - unfold by_command. cbn [on_command]. wsimpl. rewrite Hr. cbn [negb].
    by world.
  - unfold by_call. rewrite setDestination_world. by world.
  - unfold by_command. cbn [on_command]. wsimpl. rewrite Hr. cbn [negb].
    by world.
  - unfold by_call. rewrite setDestination_world. by world.
  - eexists. split; [apply getState_nonempty; by rewrite Hs|].
    cbn [State.isMoving State.destination].
    by rewrite Hs, (Hm Hr), (Hdest Hr).
  - eexists. split; [by apply getState_nonempty|].
    cbn [State.isMoving State.destination]. unfold by_call.
    rewrite !setDestination_lookup. by keys.
Qed.

End Messages.

Lemma command_start_is_not_persisted_witness :
  let w := initialize DEFAULT_SPEED (created ∅ 0) in
  let by_command :=
    on_command DEFAULT_SPEED (move_to [Fin 100; Fin 0; Fin 0]) w in
  isRunning by_command = true /\
  exists st, getState by_command = Some st /\
    State.isMoving st = false /\ State.destination st = JNull.
Proof.
  intros w by_command.
  destruct (command_start_is_not_persisted DEFAULT_SPEED DEFAULT_RATE ∅ 0 w
              100 0 0) as (Hr & _ & _ & _ & Hst & _).
  - apply reachable_initialize.
  - by destruct (initialize_fresh DEFAULT_SPEED 0) as (Hr & _).
  - exact (conj Hr Hst).
Defined.

(** ** Starting, and starting again *)

Lemma read_vector_truthy (field : option text) :
  json_truthy (read_vector field) = true.
Proof.
  destruct field as [[|v|pf]|]; try reflexivity.
  unfold read_vector. cbn [text_truthy JSON_parse mbind result_bind].
  destruct (json_truthy v); [|reflexivity]. by destruct v.
Qed.

Lemma arrayToVector3_numbers (l : list R) :
  arrayToVector3 (JArr (List.map JNum l))
  = vec (nth 0 l 0) (nth 1 l 0) (nth 2 l 0).
Proof. by destruct l as [|a [|b [|c l]]]. Qed.


Lemma read_vector_numbers (l : list R) :
  read_vector (Some (TJson (JArr (List.map JNum l)))) = JArr (List.map JNum l).
Proof.
  unfold read_vector. cbn [text_truthy JSON_parse mbind result_bind
    json_truthy map_nullish_0 try_catch].
  do 2 f_equal. induction l as [|a l IH]; [reflexivity|].
  cbn [List.map]. by rewrite IH.
Qed.

Section Initialize.

Variable speed : R.

(** [initialize] when the hash holds a record. *)
Lemma initialize_found (h : gmap string text) (t : Z) :
  h <> ∅ ->
  initialize speed (created h t)
  = updateRedisPosition speed
      (let w :=
         set_currentPosition (arrayToVector3 (read_vector (h !! "position")))
           (created h t) in
       let d := read_destination (h !! "destination") in
       if json_truthy d
       then startInterpolation (set_destination (Some (arrayToVector3 d)) w)
       else w).
Proof.
  intros Hh. unfold initialize. rewrite getState_nonempty by done.
  cbn [State.position State.destination]. by rewrite read_vector_truthy.
Qed.

(** X11.  [initialize] on an empty hash creates the default record and
    leaves the ship stopped at the origin: [getState] then returns
    position and velocity [[0,0,0]], no destination, fuel 100 and
    [isMoving] false, and nothing has been published. *)
Theorem initialize_creates_default_state (t : Z) :
  let w := initialize speed (created ∅ t) in
  isRunning w = false /\ intervalId w = false /\ destination w = None /\
  currentPosition w = vec 0 0 0 /\
  events w = [] /\ commands w = [] /\
  getState w = Some (State.mk zeros zeros JNull (Fin 100) None false) /\
  getCurrentPosition w = Some (vec 0 0 0) /\
  state w !! "timestamp" = Some (Z_toString t).
Proof.
  intros w.
  assert (Hw : w = updateRedisPosition speed (fst (updateState
    [ ("position", numbers [Fin 0; Fin 0; Fin 0]);
      ("velocity", numbers [Fin 0; Fin 0; Fin 0]);
      ("fuel", VNumber (Fin 100)) ] (created ∅ t)))).
  { unfold w, initialize. by rewrite getState_empty. }
  assert (Hlookup : forall key,
    state w !! key
    = if decide (key = "position") then Some (TJson zeros)
      else if decide (key = "velocity") then Some (TJson zeros)
      else if decide (key = "destination") then Some TEmpty
      else if decide (key = "timestamp") then Some (Z_toString t)
      else if decide (key = "isMoving") then Some str_false
      else if decide (key = "fuel") then Some (toString (Fin 100))
      else None).
  { intros key. rewrite Hw, updateRedisPosition_lookup.
    do 6 (case_decide; [reflexivity|]).
    rewrite updateState_lookup. cbn [supplied fst snd]. keys.
    apply lookup_empty. }
  assert (Hne : state w <> ∅).
  { intros He. specialize (Hlookup "position"). rewrite He in Hlookup.
    by rewrite lookup_empty in Hlookup. }
  split; [by rewrite Hw|]. split; [by rewrite Hw|]. split; [by rewrite Hw|].
  split; [by rewrite Hw|]. split; [by rewrite Hw|]. split; [by rewrite Hw|].
  split; [|split].
  - rewrite getState_nonempty by done. unfold getCurrentFuel.
    by rewrite !Hlookup.
  - unfold getCurrentPosition. by rewrite Hlookup.
  - by rewrite Hlookup.
Qed.

(** X12.  [initialize] on a hash that holds a record takes the position
    from it, zeros replacing a position it cannot use.  It leaves the
    loop stopped when the destination field is missing, empty, rejected
    by [JSON.parse] or the text [null], and starts it when the field is
    an array of numbers: the destination is then made of the first
    three, a missing one being 0 (the empty array sends the ship to the
    origin).  It publishes nothing and takes the fuel as it finds it. *)
Theorem initialize_resumes (h : gmap string text) (t : Z) :
  h <> ∅ ->
  let w := initialize speed (created h t) in
  (unusable_vector (h !! "position") -> currentPosition w = vec 0 0 0) /\
  (forall l, h !! "position" = Some (TJson (JArr (List.map JNum l))) ->
     currentPosition w = vec (nth 0 l 0) (nth 1 l 0) (nth 2 l 0)) /\
  (unusable_destination (h !! "destination") \/
   h !! "destination" = Some (TJson JNull) ->
     isRunning w = false /\ intervalId w = false /\ destination w = None /\
     state w !! "isMoving" = Some str_false) /\
  (forall l, h !! "destination" = Some (TJson (JArr (List.map JNum l))) ->
     isRunning w = true /\ intervalId w = true /\
     destination w = Some (vec (nth 0 l 0) (nth 1 l 0) (nth 2 l 0)) /\
     state w !! "isMoving" = Some str_true) /\
  getCurrentFuel w = getCurrentFuel (created h t) /\
  events w = [] /\ commands w = [].
Proof.
  intros Hh w. unfold w. rewrite (initialize_found h t Hh).
  split; [|split; [|split; [|split; [|split; [|split]]]]].
  - intros Hp. rewrite (read_vector_default _ Hp). world.
    by destruct (json_truthy (read_destination (h !! "destination"))); world.
  - intros l Hp. rewrite Hp, read_vector_numbers, arrayToVector3_numbers.
    world.
    by destruct (json_truthy (read_destination (h !! "destination"))); world.
  - intros Hd.
    assert (Hnull : read_destination (h !! "destination") = JNull).
    { destruct Hd as [Hd| ->]; [by apply read_destination_default|done]. }
    rewrite Hnull. cbn [json_truthy]. world.
    rewrite updateRedisPosition_lookup. by keys.
  - intros l Hd. rewrite Hd. cbn [read_destination text_truthy JSON_parse
      try_catch json_truthy]. rewrite arrayToVector3_numbers. world.
    rewrite updateRedisPosition_lookup. world. by keys.
  - world.
    destruct (json_truthy (read_destination (h !! "destination"))); by world.
  - world.
    by destruct (json_truthy (read_destination (h !! "destination"))); world.
  - world.
    by destruct (json_truthy (read_destination (h !! "destination"))); world.
Qed.

End Initialize.

Section Restart.

Variables speed rate : R.


End Restart.

Lemma initialize_resumes_witness :
  let h : gmap string text :=
    <["destination" := TJson (JArr (List.map JNum [100; 0; 0]%R))]> ∅ in
  let w := initialize DEFAULT_SPEED (created h 0) in
  isRunning w = true /\ currentPosition w = vec 0 0 0 /\
  destination w = Some (vec 100 0 0).
Proof.
  intros h w.
  destruct (initialize_resumes DEFAULT_SPEED h 0)
    as (Hp & _ & _ & Hd & _).
  - apply insert_non_empty.
  - split; [|split].
    + apply (Hd [100; 0; 0]). apply lookup_insert_eq.
    + apply Hp. left. unfold h. by rewrite lookup_insert_ne.
    + apply (Hd [100; 0; 0]). apply lookup_insert_eq.
Defined.


(** ** The end of a transit, and what is not a number *)

Lemma calculateDistance_real (p q : Vector3) (d : R) :
  calculateDistance p q = Fin d ->
  exists a b c a' b' c', p = vec a b c /\ q = vec a' b' c'.
Proof.
  destruct p as [[a|] [b|] [c|]], q as [[a'|] [b'|] [c'|]];
    try discriminate.
  intros _. by exists a, b, c, a', b', c'.
Qed.

Lemma calculateDistance_NaN (p q : Vector3) :
  x p = NaN \/ y p = NaN \/ z p = NaN \/
  x q = NaN \/ y q = NaN \/ z q = NaN ->
  calculateDistance p q = NaN.
Proof.
  destruct p as [[a|] [b|] [c|]], q as [[a'|] [b'|] [c'|]];
    cbn [x y z]; try reflexivity.
  intros [H|[H|[H|[H|[H|H]]]]]; discriminate.
Qed.

Lemma normalizeVector_NaN (v : Vector3) :
  x v = NaN \/ y v = NaN \/ z v = NaN ->
  normalizeVector v = mkVector3 NaN NaN NaN.
Proof.
  destruct v as [[a|] [b|] [c|]]; cbn [x y z]; try reflexivity.
  intros [H|[H|H]]; discriminate.
Qed.

Lemma advance_NaN (p : Vector3) (d : num) :
  advance p (mkVector3 NaN NaN NaN) d = mkVector3 NaN NaN NaN.
Proof. by destruct p as [[a|] [b|] [c|]], d. Qed.

Section Edges.

Variables speed rate : R.

(** X15.  The tick that arrives leaves in the hash the state of a ship at
    rest on its destination: [getState] returns the destination as
    position, velocity [[0,0,0]], no destination, [isMoving] false, and
    a fuel that is the fuel before the tick less the full draw of a
    tick, however short the last leg was; the [arrival] event carries
    the same position and fuel. *)
Theorem arrival_is_persisted (h : gmap string text) (t : Z) (w : World)
    (dest : Vector3) (f d : R) :
  reachable speed rate h t w ->
  isRunning w = true -> destination w = Some dest ->
  getCurrentFuel w = Fin f -> 0 < f -> 0 < f - fuelConsumed speed rate ->
  calculateDistance (currentPosition w) dest = Fin d ->
  d <= ARRIVAL_THRESHOLD ->
  let w' := updatePosition speed rate w in
  exists a b c st,
    dest = vec a b c /\
    getState w' = Some st /\
    State.position st = coordinates a b c /\
    State.velocity st = zeros /\
    State.destination st = JNull /\
    State.isMoving st = false /\
    State.fuel st = Fin (f - fuelConsumed speed rate) /\
    getCurrentPosition w' = Some dest /\
    last (events w')
    = Some (arrival [Fin a; Fin b; Fin c] (Fin (f - fuelConsumed speed rate))
                    (now w)).
Proof.
  intros Hw Hr Hd Hf Hpos Hgt Hdist Hle w'.
  destruct (calculateDistance_real _ _ _ Hdist)
    as (_ & _ & _ & a & b & c & _ & ->).
  pose proof (running_not_notifying w
                (consistent_reachable speed rate h t w Hw) Hr) as Hn.
  assert (Hw' : w' = notifyArrival (vec a b c)
    (hSet1 "destination" TEmpty (set_destination None
      (stopInterpolation speed (set_currentPosition (vec a b c)
        (updateFuel (Fin (f - fuelConsumed speed rate)) w)))))).
  { by apply (updatePosition_arrival speed rate w (vec a b c) f d). }
  revert Hw'.
  match goal with |- w' = notifyArrival _ ?v -> _ => set (u := v) end.
  intros Hw'.
  assert (Hnu : isNotifyingArrival u = false) by (unfold u; by world).
  assert (Hfu : getCurrentFuel u = Fin (f - fuelConsumed speed rate)).
  { unfold u. by world. }
  assert (Hnow : now u = now w) by (unfold u; by world).
  assert (Hlookup : forall key, state w' !! key
    = if decide (key = "timestamp") then Some (Z_toString (now w))
      else if decide (key = "position") then
        Some (JSON_stringify (numbers [Fin a; Fin b; Fin c]))
      else if decide (key = "velocity") then Some (TJson zeros)
      else if decide (key = "destination") then Some (TJson JNull)
      else if decide (key = "isMoving") then Some str_false
      else if decide (key = "fuel") then
        Some (toString (Fin (f - fuelConsumed speed rate)))
      else state u !! key).
  { intros key. rewrite Hw', notifyArrival_lookup by done.
    by rewrite Hfu, Hnow. }
  assert (Hne : state w' <> ∅).
  { intros He. specialize (Hlookup "position"). rewrite He in Hlookup.
    by rewrite lookup_empty in Hlookup. }
  exists a, b, c. eexists. split; [reflexivity|].
  split; [by apply getState_nonempty|].
  cbn [State.position State.velocity State.destination State.isMoving
       State.fuel].
  unfold getCurrentFuel, getCurrentPosition. rewrite !Hlookup.
  repeat (split; [reflexivity|]).
  rewrite Hw'. world. rewrite Hnu, Hfu, Hnow. apply last_snoc.
Qed.

(** One tick with a fuel that is not a number: neither fuel test fires. *)
Lemma tick_without_fuel_reading (w : World) (dest : Vector3) :
  getCurrentFuel w = NaN ->
  isRunning w = true -> destination w = Some dest ->
  let w' := updatePosition speed rate w in
  getCurrentFuel w' = NaN /\
  depletions (events w') = depletions (events w) /\
  (isRunning w' = true /\ destination w' = Some dest \/
   isRunning w' = false /\ currentPosition w' = dest).
Proof.
  intros Hf Hr Hd w'. unfold w', updatePosition.
  rewrite Hd, Hr, Hf. cbn [negb nle nsub nmax].
  destruct (nle _ (Fin ARRIVAL_THRESHOLD)).
  - split; [by world|]. split; [|right; by world].
    world. destruct (isNotifyingArrival w); world;
      rewrite ?depletions_app; cbn [depletions]; lia.
  - split; [by world|]. split; [|left; by world].
    world. rewrite depletions_app. cbn [depletions]. lia.
Qed.

(** X16.  A fuel field that does not read as a number never stops the
    ship: the comparisons of the two fuel tests fail on [NaN], every tick
    writes [NaN] back, no [fuel_depleted] event is published, and after
    any number of ticks the ship is still in transit or has stopped on
    its destination. *)
Theorem fuel_that_is_not_a_number (w : World) (dest : Vector3) (n : nat) :
  getCurrentFuel w = NaN ->
  isRunning w = true -> destination w = Some dest ->
  let w' := ticks speed rate n w in
  getCurrentFuel w' = NaN /\
  depletions (events w') = depletions (events w) /\
  (isRunning w' = true /\ destination w' = Some dest \/
   isRunning w' = false /\ currentPosition w' = dest).
Proof.
  intros Hf Hr Hd. induction n as [|n IH]; intros w'.
  - unfold w'. cbn [ticks]. split; [exact Hf|]. split; [reflexivity|].
    by left.
  - unfold w'. cbn [ticks]. destruct IH as (Hfn & Hen & [[Hrn Hdn]|[Hrn Hpn]]).
    + destruct (tick_without_fuel_reading _ dest Hfn Hrn Hdn)
        as (Hf' & He' & Hend).
      split; [exact Hf'|]. split; [congruence|exact Hend].
    + rewrite updatePosition_idle by (by right).
      split; [exact Hfn|]. split; [exact Hen|]. by right.
Qed.

(** X17.  A [move_to] command whose array has fewer than three elements
    is accepted.  The first tick that has fuel then takes the ship to a
    position whose three coordinates are [NaN], written to the hash as
    [[null,null,null]] and read back as the origin; the distance to any
    destination is [NaN] from then on, so that the arrival test fails,
    and the loop keeps running. *)
Theorem move_to_short_array (w : World) (dest : list num) (f : R) :
  (length dest < 3)%nat ->
  getCurrentFuel w = Fin f -> 0 < f -> 0 < f - fuelConsumed speed rate ->
  let w1 := on_command speed (move_to dest) w in
  let w2 := updatePosition speed rate w1 in
  isRunning w1 = true /\ isRunning w2 = true /\
  currentPosition w2 = mkVector3 NaN NaN NaN /\
  state w2 !! "position" = Some (TJson (JArr [JNull; JNull; JNull])) /\
  getCurrentPosition w2 = Some (vec 0 0 0) /\
  (forall dest', calculateDistance (currentPosition w2) dest' = NaN).
Proof.
  intros Hlen Hf Hpos Hgt w1 w2.
  set (target := mkVector3 (nth 0 dest NaN) (nth 1 dest NaN) NaN).
  assert (Hr1 : isRunning w1 = true).
  { unfold w1. cbn [on_command]. wsimpl.
    destruct (isRunning w) eqn:Hr; cbn [negb]; [exact Hr|by world]. }
  assert (Hd1 : destination w1 = Some target).
  { unfold w1. cbn [on_command]. wsimpl.
    rewrite (nth_overflow (n := 2) dest NaN) by lia.
    destruct (isRunning w); cbn [negb]; by world. }
  assert (Hf1 : getCurrentFuel w1 = Fin f).
  { unfold w1. by rewrite on_command_fuel. }
  assert (Hdist : calculateDistance (currentPosition w1) target = NaN).
  { apply calculateDistance_NaN. by do 5 right. }
  assert (Hdir : direction w1 target = mkVector3 NaN NaN NaN).
  { apply normalizeVector_NaN. do 2 right. cbn [towards z target].
    by destruct (z (currentPosition w1)). }
  assert (Hw2 : w2 = updateRedisPosition speed
      (set_currentPosition (mkVector3 NaN NaN NaN)
         (updateFuel (Fin (f - fuelConsumed speed rate)) w1))).
  { unfold w2.
    rewrite (updatePosition_moving speed rate w1 target f Hr1 Hd1 Hf1 Hpos Hgt)
      by (by rewrite Hdist).
    by rewrite Hdir, advance_NaN. }
  assert (Hp2 : currentPosition w2 = mkVector3 NaN NaN NaN).
  { rewrite Hw2. by world. }
  assert (Hs2 : state w2 !! "position"
                = Some (TJson (JArr [JNull; JNull; JNull]))).
  { rewrite Hw2, updateRedisPosition_lookup. by keys. }
  split; [exact Hr1|]. split; [rewrite Hw2; by world|].
  split; [exact Hp2|]. split; [exact Hs2|]. split.
  - unfold getCurrentPosition. by rewrite Hs2.
  - intros dest'. apply calculateDistance_NaN. left. by rewrite Hp2.
Qed.

End Edges.

Lemma arrival_is_persisted_witness :
  let w := fst (setDestination (Fin 5, Fin 0, Fin 0)
                  (initialize DEFAULT_SPEED (created ∅ 0))) in
  let w' := updatePosition DEFAULT_SPEED DEFAULT_RATE w in
  exists a b c st,
    vec 5 0 0 = vec a b c /\
    getState w' = Some st /\
    State.position st = coordinates a b c /\
    State.velocity st = zeros /\
    State.destination st = JNull /\
    State.isMoving st = false /\
    State.fuel st = Fin (100 - fuelConsumed DEFAULT_SPEED DEFAULT_RATE).
Proof.
  intros w w'.
  destruct (initialize_fresh DEFAULT_SPEED 0)
    as (_ & _ & Hp0 & _ & _ & _ & _ & _ & Hf0).
  destruct (setDestination_object (Fin 5) (Fin 0) (Fin 0)
              (initialize DEFAULT_SPEED (created ∅ 0)))
    as (Hr & Hp & Hd & _ & _ & _ & _ & Hf).
  fold w in Hr, Hp, Hd, Hf. rewrite Hp0 in Hp. rewrite Hf0 in Hf.
  assert (Hw : reachable DEFAULT_SPEED DEFAULT_RATE ∅ 0 w).
  { eapply reachable_step; [apply reachable_initialize|].
    apply step_setDestination. }
  assert (Hdist : calculateDistance (currentPosition w) (vec 5 0 0)
                  = Fin (5 - 0)).
  { rewrite Hp. apply distance_axis. lra. }
  assert (Hle : 5 - 0 <= ARRIVAL_THRESHOLD).
  { unfold ARRIVAL_THRESHOLD. lra. }
  assert (Hpos : 0 < 100) by lra.
  destruct (arrival_is_persisted DEFAULT_SPEED DEFAULT_RATE ∅ 0 w
              (vec 5 0 0) 100 (5 - 0) Hw Hr Hd Hf Hpos default_draw_small
              Hdist Hle)
    as (a & b & c & st & H1 & H2 & H3 & H4 & H5 & H6 & H7 & _).
  exists a, b, c, st.
  exact (conj H1 (conj H2 (conj H3 (conj H4 (conj H5 (conj H6 H7)))))).
Defined.

Lemma fuel_that_is_not_a_number_witness :
  let w := mkWorld true true (vec 0 0 0) (Some (vec 100 0 0)) false
             (<["fuel" := TOther NaN]> ∅) [] [] 0 [] in
  let w' := ticks DEFAULT_SPEED DEFAULT_RATE 3 w in
  getCurrentFuel w' = NaN /\
  depletions (events w') = depletions (events w).
Proof.
  intros w w'.
  assert (Hf : getCurrentFuel w = NaN).
  { unfold getCurrentFuel. cbn [state w]. by rewrite lookup_insert_eq. }
  destruct (fuel_that_is_not_a_number DEFAULT_SPEED DEFAULT_RATE w
              (vec 100 0 0) 3 Hf eq_refl eq_refl) as (Hf' & He' & _).
  exact (conj Hf' He').
Defined.

Lemma move_to_short_array_witness :
  let w := initialize DEFAULT_SPEED (created ∅ 0) in
  let w1 := on_command DEFAULT_SPEED (move_to [Fin 100; Fin 0]) w in
  let w2 := updatePosition DEFAULT_SPEED DEFAULT_RATE w1 in
  isRunning w2 = true /\ currentPosition w2 = mkVector3 NaN NaN NaN /\
  getCurrentPosition w2 = Some (vec 0 0 0).
Proof.
  intros w w1 w2.
  destruct (initialize_fresh DEFAULT_SPEED 0)
    as (_ & _ & _ & _ & _ & _ & _ & _ & Hf0).
  assert (Hlen : (length [Fin 100; Fin 0] < 3)%nat) by (cbn [length]; lia).
  assert (Hpos : 0 < 100) by lra.
  destruct (move_to_short_array DEFAULT_SPEED DEFAULT_RATE w
              [Fin 100; Fin 0] 100 Hlen Hf0 Hpos default_draw_small)
    as (_ & Hr & Hp & _ & Hg & _).
  exact (conj Hr (conj Hp Hg)).
Defined.

(** ** Writing the state and reading it back *)

(** X18.  What [updateState] writes, [getState] reads back: [updateState]
    answers [true], [getState] then returns a state (the hash holds a
    timestamp at least), and in it a fuel, an array of three numbers
    given as position, velocity or destination, a [null] destination and
    a boolean [isMoving] are the values that were supplied; a
    [target_planet_id] given as [null] is stored as the empty string and
    read as absent. *)
Theorem updateState_getState (updates : list (string * value)) (w : World) :
  let r := updateState updates w in
  snd r = true /\
  exists st, getState (fst r) = Some st /\
    (forall a, supplied "fuel" updates = Some (VNumber a) ->
       State.fuel st = a) /\
    (forall a b c,
       supplied "position" updates = Some (numbers [Fin a; Fin b; Fin c]) ->
       State.position st = coordinates a b c) /\
    (forall a b c,
       supplied "velocity" updates = Some (numbers [Fin a; Fin b; Fin c]) ->
       State.velocity st = coordinates a b c) /\
    (forall a b c,
       supplied "destination" updates = Some (numbers [Fin a; Fin b; Fin c]) ->
       State.destination st = coordinates a b c) /\
    (supplied "destination" updates = Some VNull ->
       State.destination st = JNull) /\
    (forall b, supplied "isMoving" updates = Some (VBoolean b) ->
       State.isMoving st = b) /\
    (supplied "target_planet_id" updates = Some VNull ->
       State.target_planet_id st = None) /\
    (forall s, supplied "target_planet_id" updates = Some (VString s) ->
       text_truthy s = true -> State.target_planet_id st = Some s).
Proof.
  intros r. split; [reflexivity|].
  assert (Hne : state (fst r) <> ∅).
  { intros He. apply (f_equal (fun m => m !! "timestamp")) in He.
    unfold r in He. rewrite updateState_lookup, lookup_empty in He.
    by case_decide. }
  assert (Hlookup : forall key v,
            supplied key updates = Some v -> key <> "timestamp" ->
            state (fst r) !! key = Some (redis_value key v)).
  { intros key v Hv Hk. unfold r. rewrite updateState_lookup, Hv.
    by case_decide. }
  eexists. split; [by apply getState_nonempty|].
  cbn [State.fuel State.position State.velocity State.destination
       State.isMoving State.target_planet_id].
  split; [|split; [|split; [|split; [|split; [|split; [|split]]]]]].
  - intros a Hv. apply getCurrentFuel_written.
    by rewrite (Hlookup _ _ Hv).
  - intros a b c Hv. by rewrite (Hlookup _ _ Hv).
  - intros a b c Hv. by rewrite (Hlookup _ _ Hv).
  - intros a b c Hv. by rewrite (Hlookup _ _ Hv).
  - intros Hv. by rewrite (Hlookup _ _ Hv).
  - intros b Hv. rewrite (Hlookup _ _ Hv) by done. by destruct b.
  - intros Hv. by rewrite (Hlookup _ _ Hv).
  - intros s Hv Hs. rewrite (Hlookup _ _ Hv) by done.
    assert (Hrv : redis_value "target_planet_id" (VString s) = s)
      by reflexivity.
    by rewrite Hrv, Hs.
Qed.

(** ** The instance of the process *)

Section Instance.

Variables speed rate : R.

Lemma process_run_reachable (h : gmap string text) (t : Z) (p : Process) :
  process_run speed rate h t p ->
  p = no_instance h t \/ exists w, p = instance w /\ reachable speed rate h t w.
Proof.
  induction 1 as [|p _ [-> | (w & -> & Hw)]|w w' _ IH Hstep].
  - by left.
  - right. eexists. split; [reflexivity|]. apply reachable_initialize.
  - right. by exists w.
  - right. exists w'. split; [reflexivity|].
    destruct IH as [IH | (u & Hu & Hw)]; [discriminate|].
    injection Hu as <-. by apply (reachable_step _ _ _ _ w).
Qed.

(** X19.  [getInterpolator] initializes once.  Whatever calls and steps
    came before, the instance it returns is in a state reached from the
    one [initialize] that the first call ran on the hash it found; a call
    that finds an instance returns it as it is, and a second call in a
    row returns what the first returned. *)
Theorem getInterpolator_initializes_once (h : gmap string text) (t : Z)
    (p : Process) :
  process_run speed rate h t p ->
  let r := getInterpolator speed p in
  fst r = instance (snd r) /\
  reachable speed rate h t (snd r) /\
  consistent (snd r) /\
  (p = no_instance h t -> snd r = initialize speed (created h t)) /\
  (forall w, p = instance w -> snd r = w) /\
  getInterpolator speed (fst r) = r.
Proof.
  intros Hp r.
  assert (Hr : fst r = instance (snd r) /\ reachable speed rate h t (snd r)).
  { unfold r. destruct (process_run_reachable h t p Hp)
      as [-> | (w & -> & Hw)]; [|by split].
    split; [reflexivity|apply reachable_initialize]. }
  destruct Hr as [Hi Hw].
  split; [exact Hi|]. split; [exact Hw|].
  split; [by apply (consistent_reachable speed rate h t)|].
  split; [by intros ->|]. split; [by intros w ->|].
  rewrite Hi. cbn [getInterpolator]. rewrite <- Hi. by destruct r.
Qed.

End Instance.

Lemma getInterpolator_initializes_once_witness :
  let p := no_instance ∅ 0 in
  let r := getInterpolator DEFAULT_SPEED p in
  snd r = initialize DEFAULT_SPEED (created ∅ 0) /\
  getInterpolator DEFAULT_SPEED (fst r) = r.
Proof.
  intros p r.
  destruct (getInterpolator_initializes_once DEFAULT_SPEED DEFAULT_RATE ∅ 0 p)
    as (_ & _ & _ & Hfirst & _ & Hagain).
  - apply run_start.
  - exact (conj (Hfirst eq_refl) Hagain).
Defined.
